(** * Proximity logic of the Berlin bus guide builder

    Shallow embedding of the distance and nearby-circle code of
    [frontend/src/App.tsx] (functions [calculateDistance] and
    [findNearbyCircles], working on the module-level array [allCircles])
    and of the [ArticleDetail] component ([getDistanceFromLatLonInM],
    [deg2rad] and the [nearbyCircles] filter).

    JavaScript numbers are IEEE-754 binary64 values: they are modelled by
    Rocq's primitive floats, whose operations are specified bit for bit by
    [FloatAxioms].  The same definitions are also read over the real
    numbers, which gives the exact-arithmetic meaning of the formulas.

    Around this code the file embeds the handlers of the components
    [CircleManager], [MapView], [RouteSelector] and [ArticleDetail], as
    functions of their props and state, and the page script of [App.tsx]
    that calls [findNearbyCircles], as computations on the page (its
    module-level variables, the panels of the document and the requests
    sent), with the callbacks of a request run when its response arrives. *)

From Stdlib Require Import ZArith List Bool Lia Floats Reals Lra.
From Stdlib Require Import Sorted Permutation.
From stdpp Require Import strings gmap pretty.

Set Default Proof Using "Type".

(** ** JavaScript numbers and the [Math] object *)

(** The operations on numbers that the source uses: integer literals, the
    four arithmetic operators, the comparisons [<=] and [<] (the latter is
    how [Array.prototype.sort] reads the sign of a comparator result) and the
    members of [Math] that appear in the haversine code. *)
Class NumberOps (num : Type) := {
  num_lit : Z -> num;
  num_add : num -> num -> num;
  num_sub : num -> num -> num;
  num_mul : num -> num -> num;
  num_div : num -> num -> num;
  num_le : num -> num -> bool;
  num_lt : num -> num -> bool;
  Math_PI : num;
  Math_sin : num -> num;
  Math_cos : num -> num;
  Math_sqrt : num -> num;
  Math_atan2 : num -> num -> num
}.

Declare Scope js_scope.
Delimit Scope js_scope with js.
Notation "x + y" := (num_add x y) : js_scope.
Notation "x - y" := (num_sub x y) : js_scope.
Notation "x * y" := (num_mul x y) : js_scope.
Notation "x / y" := (num_div x y) : js_scope.
Notation "x <= y" := (num_le x y) : js_scope.
Notation "x < y" := (num_lt x y) : js_scope.
Notation "x > y" := (num_lt y x) (only parsing) : js_scope.
Notation "# z" := (num_lit z%Z) (at level 1, format "# z") : js_scope.

(** *** Binary64 numbers *)

(** [Math.sin], [Math.cos] and [Math.atan2] return "implementation-approximated"
    values: ECMAScript fixes them only at special arguments.  They are the
    fields of [MathLib]; the laws are the special values of ECMA-262,
    sec. 21.3.2 that the code relies on, and the range of the two functions
    that are approximated. *)
Class MathLib := {
  lib_sin : float -> float;
  lib_cos : float -> float;
  lib_atan2 : float -> float -> float;
  (** [Math.sin(+0)] is [+0]. *)
  lib_sin_zero : lib_sin 0%float = 0%float;
  (** The cosine of a finite number lies between [-1] and [1]. *)
  lib_cos_range : forall x, is_finite x = true ->
    PrimFloat.leb (-1)%float (lib_cos x) = true /\
    PrimFloat.leb (lib_cos x) 1%float = true;
  (** [Math.atan2(+0, x)] is [+0] when [x > 0]. *)
  lib_atan2_zero : forall x, PrimFloat.ltb 0%float x = true ->
    lib_atan2 0%float x = 0%float;
  (** The angle of a point whose coordinates are not negative is not
      negative; the ordinate [-0] is left out, since [Math.atan2(-0, -0)]
      is [-pi]. *)
  lib_atan2_quadrant : forall y x,
    PrimFloat.ltb y 0%float = false -> PrimFloat.ltb x 0%float = false ->
    y <> neg_zero ->
    PrimFloat.ltb (lib_atan2 y x) 0%float = false
}.

(** Integer literals of the source are exactly representable; a literal is
    read as the nearest binary64 value. *)
Definition float_of_Z (z : Z) : float :=
  SF2Prim (binary_normalize prec emax z 0 false).

(** [Math.PI] is the binary64 value nearest to pi. *)
Definition float_PI : float := 0x1.921fb54442d18p+1%float.

#[export] Instance float_ops (M : MathLib) : NumberOps float := {
  num_lit := float_of_Z;
  num_add := PrimFloat.add;
  num_sub := PrimFloat.sub;
  num_mul := PrimFloat.mul;
  num_div := PrimFloat.div;
  num_le := PrimFloat.leb;
  num_lt := PrimFloat.ltb;
  Math_PI := float_PI;
  Math_sin := lib_sin;
  Math_cos := lib_cos;
  Math_sqrt := PrimFloat.sqrt;
  Math_atan2 := lib_atan2
}.

(** *** Exact arithmetic *)

Definition Rleb (x y : R) : bool := if Rle_dec x y then true else false.
Definition Rltb (x y : R) : bool := if Rlt_dec x y then true else false.

(** The two-argument arctangent: the angle of the point [(x, y)]. *)
Definition Ratan2 (y x : R) : R :=
  if Rlt_dec 0 x then atan (y / x)
  else if Rlt_dec x 0 then
    (if Rle_dec 0 y then atan (y / x) + PI else atan (y / x) - PI)
  else if Rlt_dec 0 y then PI / 2
  else if Rlt_dec y 0 then - (PI / 2)
  else 0.

#[export] Instance real_ops : NumberOps R := {
  num_lit := IZR;
  num_add := Rplus;
  num_sub := Rminus;
  num_mul := Rmult;
  num_div := Rdiv;
  num_le := Rleb;
  num_lt := Rltb;
  Math_PI := PI;
  Math_sin := sin;
  Math_cos := cos;
  Math_sqrt := sqrt;
  Math_atan2 := Ratan2
}.

(** ** The data model ([services/api]) *)

Section Model.
Context {num : Type} `{NumberOps num}.
Local Open Scope js_scope.

(** [interface Circle]: [center] is the pair [[lat, lon]]; [articles] is
    optional. *)
Record Circle := {
  id : string;
  name : string;
  center : num * num;
  radius : num;
  color : string;
  articles : option (list Z)
}.

(** The fields of [interface Article] that the proximity code reads, and
    [pageid]. *)
Record Article := {
  pageid : Z;
  title : string;
  lat : num;
  lon : num
}.

(** ** Distance: [App.tsx] *)

(** [function calculateDistance(lat1, lon1, lat2, lon2)].  The operators
    [*] and [/] associate to the left, so [lat1 * Math.PI/180] is
    [(lat1 * Math.PI) / 180]. *)
Definition calculateDistance (lat1 lon1 lat2 lon2 : num) : num :=
  let R := #6371000 in
  let phi1 := lat1 * Math_PI / #180 in
  let phi2 := lat2 * Math_PI / #180 in
  let dphi := (lat2 - lat1) * Math_PI / #180 in
  let dlambda := (lon2 - lon1) * Math_PI / #180 in
  let a := Math_sin (dphi / #2) * Math_sin (dphi / #2) +
           Math_cos phi1 * Math_cos phi2 *
           Math_sin (dlambda / #2) * Math_sin (dlambda / #2) in
  let c := #2 * Math_atan2 (Math_sqrt a) (Math_sqrt (#1 - a)) in
  R * c.

(** ** Distance: [ArticleDetail] *)

(** [function deg2rad(deg)]. *)
Definition deg2rad (deg : num) : num := deg * (Math_PI / #180).

(** [function getDistanceFromLatLonInM(lat1, lon1, lat2, lon2)]. *)
Definition getDistanceFromLatLonInM (lat1 lon1 lat2 lon2 : num) : num :=
  let R := #6371000 in
  let dLat := deg2rad (lat2 - lat1) in
  let dLon := deg2rad (lon2 - lon1) in
  let a :=
    Math_sin (dLat / #2) * Math_sin (dLat / #2) +
    Math_cos (deg2rad lat1) * Math_cos (deg2rad lat2) *
    Math_sin (dLon / #2) * Math_sin (dLon / #2) in
  let c := #2 * Math_atan2 (Math_sqrt a) (Math_sqrt (#1 - a)) in
  let d := R * c in
  d.

(** ** Arrays *)

(** [Array.prototype.filter] with a callback that has no effect: the
    elements for which the callback is true, in their order. *)
Definition Array_filter {A : Type} (callback : A -> bool) (l : list A) : list A :=
  List.filter callback l.

(** [Array.prototype.sort] with a comparator.  ECMAScript leaves the
    algorithm to the engine and requires the sort to be stable; an element
    [x] is moved behind [y] only when the comparator answers a number
    greater than zero for [(x, y)] (an answer of [0] or [NaN] leaves the
    two in their order).  The model is the stable insertion sort; when the
    comparator is consistent on the elements, as it is in
    [findNearbyCircles], every stable sort produces the same array. *)
Definition moves_behind {A : Type} (comparefn : A -> A -> num) (x y : A) : bool :=
  comparefn x y > #0.

Fixpoint sort_insert {A : Type} (comparefn : A -> A -> num) (x : A) (l : list A) : list A :=
  match l with
  | [] => [x]
  | y :: l' => if moves_behind comparefn x y then y :: sort_insert comparefn x l' else x :: l
  end.

Definition Array_sort {A : Type} (comparefn : A -> A -> num) (l : list A) : list A :=
  List.fold_right (sort_insert comparefn) [] l.

(** ** The page state of [App.tsx] *)

(** Arrays are objects in a store, named by their address.  The circles in
    them are only ever read by the code below, so an array holds them by
    value. *)
Definition loc := positive.

(** The store and the module-level variables: [allCircles] holds the
    address of the array assigned by [initializeArticleData]. *)
Record State := {
  arrays : gmap loc (list Circle);
  allCircles : loc;
  currentCircleId : option string;
  currentArticleLocation : option (num * num)
}.

Definition JS (A : Type) : Type := State -> A * State.

Definition ret {A : Type} (a : A) : JS A := fun s => (a, s).

Definition bind {A B : Type} (m : JS A) (k : A -> JS B) : JS B :=
  fun s => let (a, s') := m s in k a s'.

Notation "'let*' x ':=' m 'in' k" := (bind m (fun x => k))
  (at level 10, x name, m at level 100, k at level 200).

(** The elements of the array at [a]. *)
Definition contents (s : State) (a : loc) : list Circle :=
  default [] (arrays s !! a).

Definition read_array (a : loc) : JS (list Circle) :=
  fun s => (contents s a, s).

Definition write_array (a : loc) (l : list Circle) : JS unit :=
  fun s => (tt, {| arrays := <[a := l]> (arrays s);
                   allCircles := allCircles s;
                   currentCircleId := currentCircleId s;
                   currentArticleLocation := currentArticleLocation s |}).

(** A new array lives at an address that no array has yet. *)
Definition new_array (l : list Circle) : JS loc :=
  fun s => let a := fresh (dom (arrays s)) in
           (a, {| arrays := <[a := l]> (arrays s);
                  allCircles := allCircles s;
                  currentCircleId := currentCircleId s;
                  currentArticleLocation := currentArticleLocation s |}).

Definition read_allCircles : JS loc := fun s => (allCircles s, s).

(** [a.filter(callback)] builds a new array. *)
Definition filter_method (callback : Circle -> bool) (a : loc) : JS loc :=
  let* l := read_array a in
  new_array (Array_filter callback l).

(** [a.sort(comparefn)] sorts the array [a] in place and returns [a]. *)
Definition sort_method (comparefn : Circle -> Circle -> num) (a : loc) : JS loc :=
  let* l := read_array a in
  let* _ := write_array a (Array_sort comparefn l) in
  ret a.

(** ** Nearby circles: [App.tsx] *)

(** The callback of the filter in [findNearbyCircles]. *)
Definition within_1000_or_radius (lat lon : num) (circle : Circle) : bool :=
  let circleLat := fst (center circle) in
  let circleLon := snd (center circle) in
  let distance := calculateDistance lat lon circleLat circleLon in
  (distance <= #1000) || (distance <= radius circle).

(** The comparator of the sort in [findNearbyCircles]. *)
Definition by_distance (lat lon : num) (a b : Circle) : num :=
  let distA := calculateDistance lat lon (fst (center a)) (snd (center a)) in
  let distB := calculateDistance lat lon (fst (center b)) (snd (center b)) in
  distA - distB.

(** [function findNearbyCircles(lat, lon)]. *)
Definition findNearbyCircles (lat lon : num) : JS loc :=
  let* a := read_allCircles in
  let* b := filter_method (within_1000_or_radius lat lon) a in
  sort_method (by_distance lat lon) b.

(** What a call computes from the elements of [allCircles]. *)
Definition nearby_list (lat lon : num) (l : list Circle) : list Circle :=
  Array_sort (by_distance lat lon) (Array_filter (within_1000_or_radius lat lon) l).

(** The sequence that a call returns: the elements, after the call, of the
    array whose address it answers. *)
Definition returned (m : JS loc) (s : State) : list Circle :=
  let (r, s') := m s in contents s' r.

(** ** Nearby circles: [ArticleDetail] *)

(** The callback of the filter that computes [nearbyCircles], an arrow
    function in the source: the containment test, between the article of
    the component and a circle. *)
Definition isWithinCircle (article : Article) (circle : Circle) : bool :=
  let distance :=
    getDistanceFromLatLonInM
      (fst (center circle)) (snd (center circle))
      (lat article) (lon article) in
  distance <= radius circle.

(** [const nearbyCircles = circles.filter(...)], for the props [article]
    (the component returns before this line when it is [null]) and
    [circles]. *)
Definition nearbyCircles (article : Article) (circles : list Circle) : list Circle :=
  Array_filter (isWithinCircle article) circles.

End Model.

Arguments Circle num : clear implicits.
Arguments Article num : clear implicits.
Arguments State num : clear implicits.
Arguments JS num : clear implicits.

(** ** The formula of the specification *)

(** The haversine distance as the specification words it, in exact
    arithmetic: with the angles in radians,
    [a = sin^2(dphi/2) + cos(phi1) cos(phi2) sin^2(dlambda/2)],
    [c = 2 atan2(sqrt a, sqrt(1 - a))], and the distance is [R c] for
    [R = 6371000]. *)
Definition radians (deg : R) : R := (deg * PI / 180)%R.

Definition earth_radius : R := 6371000%R.

Definition haversine (lat1 lon1 lat2 lon2 : R) : R :=
  let dphi := radians (lat2 - lat1) in
  let dlambda := radians (lon2 - lon1) in
  let phi1 := radians lat1 in
  let phi2 := radians lat2 in
  let a := ((sin (dphi / 2))² + cos phi1 * cos phi2 * (sin (dlambda / 2))²)%R in
  let c := (2 * Ratan2 (sqrt a) (sqrt (1 - a)))%R in
  (earth_radius * c)%R.

(** ** A sample [Math] library *)

(** An implementation of the three approximated functions, by power series,
    with the special values that ECMAScript prescribes where the code
    meets them.  It shows that [MathLib] has an instance and lets the
    model run on concrete coordinates. *)
Module Sample.
Local Open Scope float_scope.

Definition clamp (lo hi x : float) : float :=
  if x <? lo then lo else if hi <? x then hi else if is_nan x then hi else x.

Definition sin_series (x : float) : float :=
  let x2 := x * x in
  x * (1 - x2 / 6 * (1 - x2 / 20 * (1 - x2 / 42 * (1 - x2 / 72 * (1 - x2 / 110 *
      (1 - x2 / 156 * (1 - x2 / 210 * (1 - x2 / 272 * (1 - x2 / 342 *
      (1 - x2 / 420)))))))))).

Definition cos_series (x : float) : float :=
  let x2 := x * x in
  1 - x2 / 2 * (1 - x2 / 12 * (1 - x2 / 30 * (1 - x2 / 56 * (1 - x2 / 90 *
      (1 - x2 / 132 * (1 - x2 / 182 * (1 - x2 / 240 * (1 - x2 / 306 *
      (1 - x2 / 380))))))))).

Definition sin_positive (x : float) : float :=
  if is_finite x then clamp (-1) 1 (sin_series x) else nan.

(** The sine is odd, and [sin x] is [x] for the two zeros. *)
Definition sin (x : float) : float :=
  if is_zero x then x
  else if x <? 0 then - sin_positive (- x) else sin_positive x.

Definition cos (x : float) : float :=
  if is_finite x then clamp (-1) 1 (cos_series x) else nan.

Definition atan_series (t : float) : float :=
  let t2 := t * t in
  t * (1 - t2 * (1 / 3 - t2 * (1 / 5 - t2 * (1 / 7 - t2 * (1 / 9 - t2 *
      (1 / 11 - t2 * (1 / 13 - t2 * (1 / 15 - t2 / 17)))))))).

(** [tan (x / 2)] from [tan x]. *)
Definition halve_tangent (t : float) : float :=
  t / (1 + PrimFloat.sqrt (1 + t * t)).

(** The arctangent of a ratio between 0 and 1. *)
Definition atan_unit (t : float) : float :=
  4 * atan_series (halve_tangent (halve_tangent t)).

Definition half_pi : float := 0x1.921fb54442d18p+0.

Definition positive_part (x : float) : float := if x <? 0 then 0 else x.

(** The angle of a point whose coordinates are positive or [+0]. *)
Definition first_quadrant (y x : float) : float :=
  if is_zero y then 0
  else if is_zero x then half_pi
  else if y <=? x then positive_part (atan_unit (y / x))
  else positive_part (half_pi - atan_unit (x / y)).

Definition is_neg_zero (x : float) : bool := Leibniz.eqb x neg_zero.

Definition atan2 (y x : float) : float :=
  if is_nan y || is_nan x then nan
  else if (y <? 0) || is_neg_zero y then
    (if (x <? 0) || is_neg_zero x
     then - (float_PI - first_quadrant (abs y) (abs x))
     else - first_quadrant (abs y) x)
  else
    (if (x <? 0) || is_neg_zero x
     then float_PI - first_quadrant y (abs x)
     else first_quadrant y x).

End Sample.

(** ** Circles in Berlin *)

(** Concrete circles, articles and pages, on which the model is run. *)
Module Berlin.
#[local] Set Warnings "-inexact-float".
Local Open Scope float_scope.

Definition circle_a : Circle float :=
  {| id := "a"; name := "Alexanderplatz"; center := (52.52, 13.405);
     radius := 200; color := "#3388ff"; articles := Some [] |}.

Definition circle_b : Circle float :=
  {| id := "b"; name := "Mitte"; center := (52.53, 13.41);
     radius := 5000; color := "#ff3333"; articles := None |}.

(** A circle of radius zero, a circle of negative radius and a small circle
    next to [circle_a]. *)
Definition circle_zero : Circle float :=
  {| id := "z"; name := ""; center := (52.52, 13.405);
     radius := 0; color := "#000000"; articles := None |}.

Definition circle_negative : Circle float :=
  {| id := "n"; name := ""; center := (52.52, 13.405);
     radius := -5; color := "#000000"; articles := None |}.

Definition circle_small : Circle float :=
  {| id := "s"; name := "Fountain"; center := (52.521, 13.406);
     radius := 50; color := "#00ff00"; articles := None |}.

Definition article_at (latitude longitude : float) : Article float :=
  {| pageid := 1; title := "Example"; lat := latitude; lon := longitude |}.

(** A page whose store holds two arrays; [allCircles] is the one at [a]. *)
Definition page (a : loc) (first second : list (Circle float)) : State float :=
  {| arrays := {[ 1%positive := first; 2%positive := second ]};
     allCircles := a;
     currentCircleId := None;
     currentArticleLocation := None |}.

(** Another page with the same circles in [allCircles]: the array is at
    another address and the other variables are set. *)
Definition busy_page (l : list (Circle float)) : State float :=
  {| arrays := {[ 7%positive := l; 3%positive := [circle_zero] ]};
     allCircles := 7%positive;
     currentCircleId := Some "z";
     currentArticleLocation := Some (52.5, 13.4) |}.

End Berlin.

(** * The components *)

(** ** JavaScript values in conditions *)

(** A string is falsy when it is empty, a number when it is [+0], [-0] or
    [NaN]; [undefined] and [null] are falsy, objects and arrays are truthy. *)
Definition truthy_string (s : string) : bool := negb (String.eqb s "").

Definition truthy_number (x : float) : bool := negb (is_zero x || is_nan x).

(** [a || b] for a string [a] that may be [undefined]. *)
Definition or_string (a : option string) (b : string) : string :=
  match a with
  | Some s => if truthy_string s then s else b
  | None => b
  end.

(** [Array.prototype.includes] on identifiers, which are integers. *)
Definition Array_includes (l : list Z) (x : Z) : bool := existsb (Z.eqb x) l.

(** [Array.prototype.find]: the first element for which the callback is
    true, [undefined] when there is none. *)
Definition Array_find {A : Type} (callback : A -> bool) (l : list A) : option A :=
  List.find callback l.

(** [String.prototype.split] with a separator of one character: the pieces
    between the separators, so one piece more than there are separators. *)
Fixpoint String_split (separator : Ascii.ascii) (s : string) : list string :=
  match s with
  | EmptyString => [EmptyString]
  | String c s' =>
      if Ascii.eqb c separator then EmptyString :: String_split separator s'
      else match String_split separator s' with
           | piece :: pieces => String c piece :: pieces
           | [] => [String c EmptyString]
           end
  end.

(** ** [CircleManager] *)

(** [Partial<Circle>]: the fields of [Circle], each of which may be
    absent. *)
Module Partial.
Record t := {
  id : option string;
  name : option string;
  center : option (float * float);
  radius : option float;
  color : option string;
  articles : option (list Z)
}.
End Partial.

Module CircleManager.
Import Stdlib.Strings.Ascii.
#[local] Set Warnings "-inexact-float".

(** The inputs of the form, by their [name] attribute. *)
Inductive Input := input_id | input_name | input_center | input_radius | input_color.

(** What a handler calls: [alert] or one of the props of the component. *)
Inductive Call :=
| alert (message : string)
| onSelectCircle (circle : option (Circle float))
| onCreateCircle (circle : Circle float)
| onUpdateCircle (circle : Circle float)
| onDeleteCircle (circleId : string).

(** [const emptyCircle]. *)
Definition emptyCircle : Partial.t :=
  {| Partial.id := Some ""; Partial.name := Some "";
     Partial.center := Some (52.52, 13.405)%float; Partial.radius := Some 500%float;
     Partial.color := Some "#1976d2"; Partial.articles := None |}.

(** [{ ...selectedCircle }]. *)
Definition spread (circle : Circle float) : Partial.t :=
  {| Partial.id := Some (id circle); Partial.name := Some (name circle);
     Partial.center := Some (center circle); Partial.radius := Some (radius circle);
     Partial.color := Some (color circle); Partial.articles := articles circle |}.

(** The effect that runs when [selectedCircle] changes: the form values
    it sets. *)
Definition reset (selectedCircle : option (Circle float)) : Partial.t :=
  match selectedCircle with
  | Some circle => spread circle
  | None => emptyCircle
  end.

Section Handlers.
(** The global function [parseFloat] and [String.prototype.trim]. *)
Variable parseFloat : string -> float.
Variable trim : string -> string.

(** [handleInputChange], for the input [name] and its new [value]: the
    form values after the event.  In the branch of [center] the two first
    pieces are read; a piece that is missing is [undefined], for which
    [isNaN] is true. *)
Definition handleInputChange (formValues : Partial.t) (name : Input) (value : string) :
    Partial.t :=
  match name with
  | input_center =>
      let parsed := List.map (fun val => parseFloat (trim val)) (String_split ","%char value) in
      match parsed !! 0%nat, parsed !! 1%nat with
      | Some lat, Some lng =>
          if negb (is_nan lat) && negb (is_nan lng) then
            {| Partial.id := Partial.id formValues; Partial.name := Partial.name formValues;
               Partial.center := Some (lat, lng); Partial.radius := Partial.radius formValues;
               Partial.color := Partial.color formValues;
               Partial.articles := Partial.articles formValues |}
          else formValues
      | _, _ => formValues
      end
  | input_radius =>
      {| Partial.id := Partial.id formValues; Partial.name := Partial.name formValues;
         Partial.center := Partial.center formValues;
         Partial.radius := Some (parseFloat value);
         Partial.color := Partial.color formValues;
         Partial.articles := Partial.articles formValues |}
  | input_id =>
      {| Partial.id := Some value; Partial.name := Partial.name formValues;
         Partial.center := Partial.center formValues;
         Partial.radius := Partial.radius formValues;
         Partial.color := Partial.color formValues;
         Partial.articles := Partial.articles formValues |}
  | input_name =>
      {| Partial.id := Partial.id formValues; Partial.name := Some value;
         Partial.center := Partial.center formValues;
         Partial.radius := Partial.radius formValues;
         Partial.color := Partial.color formValues;
         Partial.articles := Partial.articles formValues |}
  | input_color =>
      {| Partial.id := Partial.id formValues; Partial.name := Partial.name formValues;
         Partial.center := Partial.center formValues;
         Partial.radius := Partial.radius formValues;
         Partial.color := Some value;
         Partial.articles := Partial.articles formValues |}
  end.

End Handlers.

(** [handleSubmit]: the form is refused when [id], [name], [center] or
    [radius] is falsy. *)
Definition handleSubmit (formValues : Partial.t) (selectedCircle : option (Circle float)) :
    Call :=
  match Partial.id formValues, Partial.name formValues,
        Partial.center formValues, Partial.radius formValues with
  | Some i, Some n, Some c, Some r =>
      if negb (truthy_string i) || negb (truthy_string n) || negb (truthy_number r)
      then alert "Please fill all required fields"
      else
        let circleData :=
          {| id := i; name := n; center := c; radius := r;
             color := or_string (Partial.color formValues) "#1976d2";
             articles := Some (default [] (Partial.articles formValues)) |} in
        match selectedCircle with
        | Some _ => onUpdateCircle circleData
        | None => onCreateCircle circleData
        end
  | _, _, _, _ => alert "Please fill all required fields"
  end.

(** [handleNewCircle]: the call to the prop and the form values set. *)
Definition handleNewCircle : Call * Partial.t := (onSelectCircle None, emptyCircle).

(** [handleDeleteCircle]; [confirmed] is the answer of [window.confirm],
    which is asked only when a circle is selected. *)
Definition handleDeleteCircle (selectedCircle : option (Circle float)) (confirmed : bool) :
    option Call :=
  match selectedCircle with
  | Some circle => if confirmed then Some (onDeleteCircle (id circle)) else None
  | None => None
  end.

(** [getCircleArticles], for the props [selectedCircle] and [articles]. *)
Definition getCircleArticles (selectedCircle : option (Circle float))
    (articles : list (Article float)) : list (Article float) :=
  match selectedCircle with
  | Some {| articles := Some ids |} =>
      if (length ids =? 0)%nat then []
      else Array_filter (fun article => Array_includes ids (pageid article)) articles
  | _ => []
  end.

(** The coordinates of the centre in the form, when there is one, are
    numbers. *)
Definition center_is_number (formValues : Partial.t) : Prop :=
  match Partial.center formValues with
  | Some (lat, lng) => is_nan lat = false /\ is_nan lng = false
  | None => True
  end.

End CircleManager.

(** ** [MapView] *)

(** The path options of Leaflet that the component sets. *)
Module PathOptions.
Record t := {
  radius : option float;
  stroke : option bool;
  color : string;
  weight : float;
  opacity : float;
  fillColor : string;
  fillOpacity : float
}.
End PathOptions.

Module MapView.
#[local] Set Warnings "-inexact-float".

(** [getMarkerStyle], for the prop [selectedCircle]. *)
Definition getMarkerStyle (selectedCircle : option (Circle float)) (article : Article float) :
    PathOptions.t :=
  let isInSelectedCircle :=
    match selectedCircle with
    | Some {| articles := Some ids |} => Array_includes ids (pageid article)
    | _ => false
    end in
  {| PathOptions.radius := Some 6%float;
     PathOptions.stroke := None;
     PathOptions.fillColor := if isInSelectedCircle then "#1976d2" else "#d32f2f";
     PathOptions.color := "#fff";
     PathOptions.weight := 1;
     PathOptions.opacity := 1;
     PathOptions.fillOpacity := 0.8 |}.

(** [getCircleStyle], for the prop [selectedCircle]. *)
Definition getCircleStyle (selectedCircle : option (Circle float)) (circle : Circle float) :
    PathOptions.t :=
  let isSelected :=
    match selectedCircle with
    | Some selected => String.eqb (id selected) (id circle)
    | None => false
    end in
  {| PathOptions.radius := None;
     PathOptions.stroke := Some true;
     PathOptions.color := or_string (Some (color circle)) "#1976d2";
     PathOptions.weight := if isSelected then 3 else 1;
     PathOptions.opacity := if isSelected then 0.9 else 0.5;
     PathOptions.fillColor := or_string (Some (color circle)) "#1976d2";
     PathOptions.fillOpacity := if isSelected then 0.2 else 0.1 |}.

End MapView.

(** ** [RouteSelector] *)

(** [interface Route]. *)
Module Route.
Record t := {
  id : string;
  name : option string;
  ref : option string;
  from : option string;
  to : option string;
  file : option string
}.
End Route.

Module RouteSelector.

(** The [onChange] handler of the [select], for the prop [routes] and the
    value [routeId] of the option chosen: the argument with which it calls
    [onSelectRoute]. *)
Definition onChange (routes : list Route.t) (routeId : string) : option Route.t :=
  if negb (truthy_string routeId) then None
  else Array_find (fun r => String.eqb (Route.id r) routeId) routes.

End RouteSelector.

(** ** [ArticleDetail] *)

Module ArticleDetail.
Section Component.
Context {num : Type}.

(** What a handler calls: [alert] or the prop [onAddToCircle]. *)
Inductive Call :=
| alert (message : string)
| onAddToCircle (circleId : string) (articleId : Z).

(** The handler of a click on an item of the list of nearby circles: the
    value it gives to [selectedCircleId]. *)
Definition onClick (circle : Circle num) : string := id circle.

(** [handleAddToCircle], for the prop [article] and the state
    [selectedCircleId]: the call it makes and the [selectedCircleId] it
    leaves. *)
Definition handleAddToCircle (article : Article num) (selectedCircleId : string) :
    Call * string :=
  if negb (truthy_string selectedCircleId) then
    (alert "Please select a circle", selectedCircleId)
  else (onAddToCircle selectedCircleId (pageid article), "").

End Component.
End ArticleDetail.

(** ** Sample text functions *)

(** A [parseFloat] for short decimal numerals (a sign, digits, a point and
    digits), with the rest of the text ignored and [NaN] when no digit is
    found, and a [trim] for the white space of ASCII.  They let the model
    of the form run on concrete text. *)
Module SampleText.
Import Stdlib.Strings.Ascii.

Definition digit (c : ascii) : option Z :=
  let n := Z.of_N (N_of_ascii c) in
  if (48 <=? n)%Z && (n <=? 57)%Z then Some (n - 48)%Z else None.

(** The leading digits of [s], read after the value [acc]: the value, the
    number of digits read and the rest of the text. *)
Fixpoint digits (s : string) (acc : Z) (count : nat) : Z * nat * string :=
  match s with
  | String c s' =>
      match digit c with
      | Some d => digits s' (10 * acc + d)%Z (S count)
      | None => (acc, count, s)
      end
  | EmptyString => (acc, count, s)
  end.

Definition parseFloat (s : string) : float :=
  let '(negative, s1) :=
    match s with
    | String "-" s' => (true, s')
    | String "+" s' => (false, s')
    | _ => (false, s)
    end in
  let '(whole, n1, s2) := digits s1 0 0 in
  let '(numerator, n2) :=
    match s2 with
    | String "." s3 => let '(v, n, _) := digits s3 whole 0 in (v, n)
    | _ => (whole, 0%nat)
    end in
  if (n1 + n2 =? 0)%nat then nan
  else
    let value := (float_of_Z numerator / float_of_Z (10 ^ Z.of_nat n2))%float in
    if negative then (- value)%float else value.

Definition is_space (c : ascii) : bool :=
  let n := N_of_ascii c in (n =? 32)%N || ((9 <=? n)%N && (n <=? 13)%N).

Fixpoint trim_start (s : string) : string :=
  match s with
  | String c s' => if is_space c then trim_start s' else s
  | EmptyString => s
  end.

Fixpoint trim_end (s : string) : string :=
  match s with
  | String c s' =>
      match trim_end s' with
      | EmptyString => if is_space c then EmptyString else String c EmptyString
      | rest => String c rest
      end
  | EmptyString => s
  end.

Definition trim (s : string) : string := trim_end (trim_start s).

(** For [parseInt] on a number in exponential notation: the first decimal
    digit of the integer, with its sign (the digit printed when the digits
    of the number start with those of the integer). *)
Definition parseInt_exponential (n : Z) : Z :=
  match pretty (Z.abs n) with
  | String c _ => (Z.sgn n * (Z.of_N (N_of_ascii c) - 48))%Z
  | EmptyString => 0%Z
  end.

End SampleText.

(** * The page script *)

(** The second script of [App.tsx]: module-level variables, the panels of
    the page, and requests to the server whose responses arrive later.  A
    function of the script is a computation on the page; the callbacks of
    a request are computations of their own, run when the response has
    arrived. *)
Module Script.

(** The double quote and the line feed of the templates. *)
Definition dq : string := String (Ascii.ascii_of_N 34) EmptyString.
Definition nl : string := String (Ascii.ascii_of_N 10) EmptyString.

(** An element of the document, with the properties that the script
    sets: [style.display], [innerHTML], [textContent] and [value]. *)
Record Element := {
  display : string;
  innerHTML : string;
  textContent : string;
  value : string
}.

(** What is thrown: an [Error] made by the script, with its message, or an
    error of the engine (the [TypeError] of a property of [null] or
    [undefined], a request that failed), whose message is none of the
    script's. *)
Inductive Exception :=
| Error (message : string)
| EngineError.

Inductive Completion (A : Type) :=
| normal (a : A)
| throw (e : Exception).
Arguments normal {A} a.
Arguments throw {A} e.

Section Script.
Context {num : Type} `{NumberOps num}.
Local Open Scope js_scope.

(** [String.prototype.trim], [Math.round] and the text of a number in a
    template. *)
Variable trim : string -> string.
Variable Math_round : num -> num.
Variable Number_toString : num -> string.

(** What [parseInt] reads from an integer that is printed in exponential
    notation: the digits before the point or the exponent, with the sign
    ([parseInt(1e21)] is [1]). *)
Variable parseInt_exponential : Z -> Z.

(** [parseInt] on an identifier: the number is printed, and the integer at
    the start of the text is read.  An integer below [10^21] is printed as
    its decimal digits, which are read back whole; from [10^21] on it is
    printed in exponential notation. *)
Definition parseInt (articleId : Z) : Z :=
  if (Z.abs articleId <? 10 ^ 21)%Z then articleId else parseInt_exponential articleId.

(** The body of a request, before [JSON.stringify]. *)
Inductive Body :=
| circle_body (circle : Circle num)
| article_body (circle_id : string) (article_id : Z).

(** The data of a message to the parent window. *)
Inductive Message :=
| circle_selected (circle : option (Circle num))
| articles_updated (articles : list (Z * string)).

(** What the script does to the world outside the page. *)
Inductive Effect :=
| fetch (url : string) (method : string) (body : option Body)
| alert (message : string)
| console_error (text : string)
| console_log (text : string)
| postMessage (message : Message)
| reload.

(** The page: the module-level variables ([allCircles], [currentCircleId]
    and [currentArticleLocation] are those of [State]), the elements of the
    document by their [id], whether [window.parent] and its [postMessage]
    are there, and what has been done so far.  The keys of
    [selectedArticleTitles] are identifiers; [selectedArticles], which no
    function reads or writes, is left out. *)
Record Page := {
  globals : State num;
  selectedArticleTitles : gmap Z string;
  circleData : option (Circle num);
  currentArticleForAssignment : option (Z * string);
  document : gmap string Element;
  window_parent : bool;
  effects : list Effect
}.

Definition Run (A : Type) : Type := Page -> Completion A * Page.

Definition pure {A : Type} (a : A) : Run A := fun p => (normal a, p).

Definition and_then {A B : Type} (m : Run A) (k : A -> Run B) : Run B :=
  fun p =>
    match m p with
    | (normal a, p') => k a p'
    | (throw e, p') => (throw e, p')
    end.

Notation "'let*' x ':=' m 'in' k" := (and_then m (fun x => k))
  (at level 10, x name, m at level 100, k at level 200).
Notation "m ;; k" := (and_then m (fun _ => k))
  (at level 100, k at level 200, right associativity).

Definition get : Run Page := fun p => (normal p, p).

Definition raise {A : Type} (e : Exception) : Run A := fun p => (throw e, p).

Definition emit (e : Effect) : Run unit :=
  fun p => (normal tt,
            {| globals := globals p;
               selectedArticleTitles := selectedArticleTitles p;
               circleData := circleData p;
               currentArticleForAssignment := currentArticleForAssignment p;
               document := document p;
               window_parent := window_parent p;
               effects := effects p ++ [e] |}).

Definition set_globals (s : State num) : Run unit :=
  fun p => (normal tt,
            {| globals := s;
               selectedArticleTitles := selectedArticleTitles p;
               circleData := circleData p;
               currentArticleForAssignment := currentArticleForAssignment p;
               document := document p;
               window_parent := window_parent p;
               effects := effects p |}).

(** [currentCircleId = v]. *)
Definition set_currentCircleId (v : option string) : Run unit :=
  let* p := get in
  set_globals {| arrays := arrays (globals p);
                 allCircles := allCircles (globals p);
                 currentCircleId := v;
                 currentArticleLocation := currentArticleLocation (globals p) |}.

(** [currentArticleLocation = v]. *)
Definition set_currentArticleLocation (v : option (num * num)) : Run unit :=
  let* p := get in
  set_globals {| arrays := arrays (globals p);
                 allCircles := allCircles (globals p);
                 currentCircleId := currentCircleId (globals p);
                 currentArticleLocation := v |}.

(** [allCircles = data], for an array [data] that the response brought:
    it is a new array of the store. *)
Definition set_allCircles (data : list (Circle num)) : Run unit :=
  let* p := get in
  let a := fresh (dom (arrays (globals p))) in
  set_globals {| arrays := <[a := data]> (arrays (globals p));
                 allCircles := a;
                 currentCircleId := currentCircleId (globals p);
                 currentArticleLocation := currentArticleLocation (globals p) |}.

(** [circleData = v]. *)
Definition set_circleData (v : option (Circle num)) : Run unit :=
  fun p => (normal tt,
            {| globals := globals p;
               selectedArticleTitles := selectedArticleTitles p;
               circleData := v;
               currentArticleForAssignment := currentArticleForAssignment p;
               document := document p;
               window_parent := window_parent p;
               effects := effects p |}).

(** [currentArticleForAssignment = v]. *)
Definition set_currentArticleForAssignment (v : option (Z * string)) : Run unit :=
  fun p => (normal tt,
            {| globals := globals p;
               selectedArticleTitles := selectedArticleTitles p;
               circleData := circleData p;
               currentArticleForAssignment := v;
               document := document p;
               window_parent := window_parent p;
               effects := effects p |}).

(** A call of a function of [App.tsx] that works on the store. *)
Definition call {A : Type} (m : JS num A) : Run A :=
  fun p => let (a, s) := m (globals p) in
           (normal a,
            {| globals := s;
               selectedArticleTitles := selectedArticleTitles p;
               circleData := circleData p;
               currentArticleForAssignment := currentArticleForAssignment p;
               document := document p;
               window_parent := window_parent p;
               effects := effects p |}).

(** [document.getElementById(id).property = ...]: a [TypeError] when there
    is no such element. *)
Definition update_element (id : string) (f : Element -> Element) : Run unit :=
  fun p =>
    match document p !! id with
    | Some element =>
        (normal tt,
         {| globals := globals p;
            selectedArticleTitles := selectedArticleTitles p;
            circleData := circleData p;
            currentArticleForAssignment := currentArticleForAssignment p;
            document := <[id := f element]> (document p);
            window_parent := window_parent p;
            effects := effects p |})
    | None => (throw EngineError, p)
    end.

Definition assign_display (id v : string) : Run unit :=
  update_element id (fun element =>
    {| display := v; innerHTML := innerHTML element;
       textContent := textContent element; value := value element |}).

Definition assign_innerHTML (id v : string) : Run unit :=
  update_element id (fun element =>
    {| display := display element; innerHTML := v;
       textContent := textContent element; value := value element |}).

Definition assign_textContent (id v : string) : Run unit :=
  update_element id (fun element =>
    {| display := display element; innerHTML := innerHTML element;
       textContent := v; value := value element |}).

Definition assign_value (id v : string) : Run unit :=
  update_element id (fun element =>
    {| display := display element; innerHTML := innerHTML element;
       textContent := textContent element; value := v |}).

(** [document.getElementById(id).value]. *)
Definition read_value (id : string) : Run string :=
  fun p =>
    match document p !! id with
    | Some element => (normal (value element), p)
    | None => (throw EngineError, p)
    end.

(** The end of a chain [.then(on_data).catch(on_error)], when the response
    has arrived: [on_data] runs, and [on_error] when it throws. *)
Definition settle (on_data : Run unit) (on_error : Exception -> Run unit) : Run unit :=
  fun p =>
    match on_data p with
    | (normal _, p') => (normal tt, p')
    | (throw e, p') => on_error e p'
    end.

(** ** The functions of the script *)

(** [initializeArticleData] and the callbacks of its request. *)
Definition initializeArticleData : Run unit := emit (fetch "/api/circles" "GET" None).

Definition initializeArticleData_then (data : list (Circle num)) : Run unit :=
  set_allCircles data.

Definition initializeArticleData_catch (error : Exception) : Run unit :=
  emit (console_error "Error loading circles:").

Definition showCirclePanel : Run unit := assign_display "circle-panel" "block".
Definition hideCirclePanel : Run unit := assign_display "circle-panel" "none".
Definition showNearbyCirclesPanel : Run unit := assign_display "nearby-circles-panel" "block".
Definition hideNearbyCirclesPanel : Run unit := assign_display "nearby-circles-panel" "none".

(** [getArticleTitle], which reads [selectedArticleTitles]. *)
Definition getArticleTitle (p : Page) (articleId : Z) : string :=
  match selectedArticleTitles p !! articleId with
  | Some articleTitle =>
      if truthy_string articleTitle then articleTitle else "Article " +:+ pretty articleId
  | None => "Article " +:+ pretty articleId
  end.

(** [notifyParentOfSelection]. *)
Definition notifyParentOfSelection : Run unit :=
  let* p := get in
  if window_parent p then emit (postMessage (circle_selected (circleData p)))
  else pure tt.

(** [notifyParentOfArticles]; [circleData.articles.map] throws when the
    circle has no [articles]. *)
Definition notifyParentOfArticles : Run unit :=
  let* p := get in
  match window_parent p, circleData p with
  | true, Some circle =>
      match articles circle with
      | Some ids =>
          emit (postMessage (articles_updated
            (List.map (fun articleId => (articleId, getArticleTitle p articleId)) ids)))
      | None => raise EngineError
      end
  | _, _ => pure tt
  end.

(** The item of an article in the list of [updateAssignedArticles]. *)
Definition assigned_article (articleTitle : string) (articleId : Z) : string :=
  nl +:+
  "            <li>" +:+ nl +:+
  "                " +:+ articleTitle +:+ nl +:+
  "                <button class=" +:+ dq +:+ "remove-btn" +:+ dq +:+
    " onclick=" +:+ dq +:+ "removeAssignedArticle(" +:+ pretty articleId +:+ ")" +:+ dq +:+
    ">✕</button>" +:+ nl +:+
  "            </li>" +:+ nl +:+
  "        ".

(** [updateAssignedArticles]. *)
Definition updateAssignedArticles : Run unit :=
  let* p := get in
  match circleData p with
  | Some {| articles := Some ((_ :: _) as ids) |} =>
      let html := "<ul id=" +:+ dq +:+ "assigned-articles-list" +:+ dq +:+
                  " class=" +:+ dq +:+ "article-list" +:+ dq +:+ ">" in
      let html :=
        List.fold_left
          (fun html articleId =>
             let articleTitle := getArticleTitle p articleId in
             html +:+ assigned_article articleTitle articleId)
          ids html in
      let html := html +:+ "</ul>" in
      assign_innerHTML "assigned-articles" html ;;
      notifyParentOfArticles
  | _ => assign_innerHTML "assigned-articles" "<p>No articles assigned to this circle</p>"
  end.

(** The option of a circle in the list of [showNearbyCircles]. *)
Definition circle_option (articleId : Z) (title : string) (circle : Circle num)
    (distance : num) : string :=
  nl +:+
  "                <div class=" +:+ dq +:+ "circle-option" +:+ dq +:+
    " onclick=" +:+ dq +:+ "assignArticleToCircle(" +:+ pretty articleId +:+ ", '" +:+
    id circle +:+ "', '" +:+ title +:+ "')" +:+ dq +:+ ">" +:+ nl +:+
  "                    <strong>" +:+ or_string (Some (name circle)) "Unnamed Circle" +:+
    "</strong>" +:+ nl +:+
  "                    <div>Distance: " +:+ Number_toString (Math_round distance) +:+
    " meters</div>" +:+ nl +:+
  "                </div>" +:+ nl +:+
  "            ".

(** [showNearbyCircles]. *)
Definition showNearbyCircles (articleId : Z) (lat lon : num) (title : string) : Run unit :=
  set_currentArticleForAssignment (Some (articleId, title)) ;;
  set_currentArticleLocation (Some (lat, lon)) ;;
  assign_textContent "article-to-assign" ("Article: " +:+ title) ;;
  let* nearbyCircles := call (findNearbyCircles lat lon) in
  let* circles := call (read_array nearbyCircles) in
  (if (length circles =? 0)%nat then
     assign_innerHTML "nearby-circles-list"
       ("<p class=" +:+ dq +:+ "no-circles-message" +:+ dq +:+ ">No circles found nearby</p>")
   else
     let html :=
       List.fold_left
         (fun html circle =>
            let distance :=
              calculateDistance lat lon (fst (center circle)) (snd (center circle)) in
            html +:+ circle_option articleId title circle distance)
         circles "" in
     assign_innerHTML "nearby-circles-list" html) ;;
  showNearbyCirclesPanel.

(** [loadCircleData] and the callbacks of its request. *)
Definition loadCircleData : Run unit :=
  let* p := get in
  match currentCircleId (globals p) with
  | Some circleId =>
      if truthy_string circleId then emit (fetch ("/get-circle/" +:+ circleId) "GET" None)
      else pure tt
  | None => pure tt
  end.

Definition loadCircleData_then (data : Circle num) : Run unit :=
  set_circleData (Some data) ;;
  assign_value "circle-name" (or_string (Some (name data)) "") ;;
  updateAssignedArticles ;;
  notifyParentOfSelection.

Definition loadCircleData_catch (error : Exception) : Run unit :=
  emit (console_error "Error loading circle data:") ;;
  emit (alert "Error loading circle data").

(** [assignArticleToCircle] and the callbacks of its two requests. *)
Definition assignArticleToCircle (articleId : Z) (circleId articleTitle : string) : Run unit :=
  emit (fetch ("/get-circle/" +:+ circleId) "GET" None).

Definition assignArticleToCircle_then (articleId : Z) (circleId : string)
    (data : Circle num) : Run unit :=
  let ids := default [] (articles data) in
  let articleId := parseInt articleId in
  if negb (Array_includes ids articleId) then
    let ids := ids ++ [articleId] in
    emit (fetch "/save-circle" "POST"
            (Some (circle_body
               {| id := circleId; name := name data; center := center data;
                  radius := radius data; color := color data; articles := Some ids |})))
  else raise (Error "Article is already assigned to this circle").

Definition assignArticleToCircle_saved (circleId : string) : Run unit :=
  emit (alert "Article successfully assigned to circle!") ;;
  hideNearbyCirclesPanel ;;
  let* p := get in
  match currentCircleId (globals p) with
  | Some current => if String.eqb current circleId then loadCircleData else pure tt
  | None => pure tt
  end.

Definition assignArticleToCircle_catch (error : Exception) : Run unit :=
  emit (console_error "Error:") ;;
  match error with
  | Error message =>
      if String.eqb message "Article is already assigned to this circle"
      then emit (alert "This article is already assigned to the selected circle.")
      else emit (alert "Error assigning article to circle.")
  | EngineError => emit (alert "Error assigning article to circle.")
  end.

(** [createCircleForArticle] at the time [now] of [Date.now()], and the
    callbacks of its request. *)
Definition createCircleForArticle (now : Z) : Run unit :=
  let* p := get in
  match currentArticleForAssignment p, currentArticleLocation (globals p) with
  | Some (articleId, articleTitle), Some (lat, lon) =>
      let circleId := "circle_" +:+ pretty now in
      let newCircle :=
        {| id := circleId; name := "Circle for " +:+ articleTitle; center := (lat, lon);
           radius := #200; color := "#95276E"; articles := Some [parseInt articleId] |} in
      emit (fetch "/save-circle" "POST" (Some (circle_body newCircle)))
  | _, _ => emit (alert "No article selected for assignment")
  end.

Definition createCircleForArticle_then : Run unit :=
  emit (alert "New circle created with the article assigned!") ;;
  hideNearbyCirclesPanel ;;
  emit reload.

Definition createCircleForArticle_catch (error : Exception) : Run unit :=
  emit (console_error "Error:") ;;
  emit (alert "Error creating circle").

(** [removeAssignedArticle]; [confirmed] is the answer of [confirm]. *)
Definition removeAssignedArticle (articleId : Z) (confirmed : bool) : Run unit :=
  let* p := get in
  match currentCircleId (globals p) with
  | Some circleId =>
      if truthy_string circleId && confirmed then
        emit (fetch "/remove-article-from-circle" "POST"
                (Some (article_body circleId (parseInt articleId))))
      else pure tt
  | None => pure tt
  end.

Definition removeAssignedArticle_then (status : string) : Run unit :=
  if String.eqb status "removed" then loadCircleData
  else emit (alert ("Error removing article: " +:+ status)).

Definition removeAssignedArticle_catch (error : Exception) : Run unit :=
  emit (console_error "Error:") ;;
  emit (alert "Error removing article").

(** [selectCircle]. *)
Definition selectCircle (circleId : string) : Run unit :=
  set_currentCircleId (Some circleId) ;;
  loadCircleData ;;
  showCirclePanel ;;
  notifyParentOfSelection.

(** [saveCircle] and the callbacks of its request. *)
Definition saveCircle : Run unit :=
  let* p := get in
  match currentCircleId (globals p), circleData p with
  | Some circleId, Some data =>
      if truthy_string circleId then
        let* text := read_value "circle-name" in
        let name := or_string (Some (trim text)) "Unnamed Circle" in
        emit (fetch "/save-circle" "POST"
                (Some (circle_body
                   {| id := circleId; name := name; center := center data;
                      radius := radius data; color := color data;
                      articles := Some (default [] (articles data)) |})))
      else emit (alert "No circle selected!")
  | _, _ => emit (alert "No circle selected!")
  end.

Definition saveCircle_then : Run unit :=
  emit (alert "Circle saved successfully!") ;;
  loadCircleData ;;
  initializeArticleData.

Definition saveCircle_catch (error : Exception) : Run unit :=
  emit (console_error "Error:") ;;
  emit (alert "Error saving circle").

(** [deleteCircle] and the callbacks of its request. *)
Definition deleteCircle (confirmed : bool) : Run unit :=
  let* p := get in
  match currentCircleId (globals p) with
  | Some circleId =>
      if truthy_string circleId && confirmed then
        emit (fetch ("/delete-circle/" +:+ circleId) "DELETE" None)
      else pure tt
  | None => pure tt
  end.

Definition deleteCircle_then : Run unit :=
  emit (alert "Circle deleted successfully!") ;;
  hideCirclePanel ;;
  set_currentCircleId None ;;
  set_circleData None ;;
  emit reload.

Definition deleteCircle_catch (error : Exception) : Run unit :=
  emit (console_error "Error:") ;;
  emit (alert "Error deleting circle").

(** [handleNewCircle], for a layer with the centre [(lat, lng)] and the
    radius [layer_radius], at the time [now]; and the callbacks of its
    request. *)
Definition handleNewCircle (lat lng layer_radius : num) (now : Z) : Run unit :=
  let circleId := "circle_" +:+ pretty now in
  set_currentCircleId (Some circleId) ;;
  let data := {| id := circleId; name := "New Circle"; center := (lat, lng);
                 radius := layer_radius; color := "#95276E"; articles := Some [] |} in
  set_circleData (Some data) ;;
  assign_value "circle-name" (name data) ;;
  updateAssignedArticles ;;
  showCirclePanel ;;
  emit (fetch "/save-circle" "POST" (Some (circle_body data))).

Definition handleNewCircle_then : Run unit :=
  emit (console_log "Circle created:") ;;
  initializeArticleData ;;
  notifyParentOfSelection.

Definition handleNewCircle_catch (error : Exception) : Run unit :=
  emit (console_error "Error creating circle:").

End Script.

Arguments Body num : clear implicits.
Arguments Message num : clear implicits.
Arguments Effect num : clear implicits.
Arguments Page num : clear implicits.
Arguments Run num : clear implicits.

End Script.

(** ** An editor in Berlin *)

(** Articles, a circle with three identifiers and a page of the editor, on
    which the components and the script are run. *)
Module Editor.
Import Script.
#[local] Set Warnings "-inexact-float".
Local Open Scope float_scope.

Definition circle_three : Circle float :=
  {| id := "c"; name := "Three"; center := (52.52, 13.405); radius := 500;
     color := "#1976d2"; articles := Some [7; 8; 9]%Z |}.

(** A circle at the centre of [Berlin.circle_small], with a larger
    radius. *)
Definition circle_wide : Circle float :=
  {| id := "w"; name := "Fountain"; center := (52.521, 13.406); radius := 80;
     color := "#00ff00"; articles := None |}.

(** A circle whose centre is not a point. *)
Definition circle_nowhere : Circle float :=
  {| id := "x"; name := "Nowhere"; center := (nan, 13.405); radius := infinity;
     color := "#000000"; articles := None |}.

Definition article_8 : Article float :=
  {| pageid := 8; title := "Fernsehturm"; lat := 52.5208; lon := 13.4094 |}.

Definition article_5 : Article float :=
  {| pageid := 5; title := "Rotes Rathaus"; lat := 52.5186; lon := 13.4083 |}.

(** Text typed into the form of [CircleManager]. *)
Definition type : Partial.t -> CircleManager.Input -> string -> Partial.t :=
  CircleManager.handleInputChange SampleText.parseFloat SampleText.trim.

(** The form filled in for a new circle. *)
Definition filled (radius : string) : Partial.t :=
  type (type (type CircleManager.emptyCircle CircleManager.input_id "c1")
          CircleManager.input_name "Mitte")
    CircleManager.input_radius radius.

Definition blank : Element :=
  {| display := "none"; innerHTML := ""; textContent := ""; value := "" |}.

(** A page with the panels of the editor, two circles in [allCircles], the
    circle [circle_three] loaded and one title stored. *)
Definition editor : Page float :=
  {| globals := Berlin.page 1%positive [Berlin.circle_b; Berlin.circle_a] [];
     selectedArticleTitles := {[ 8%Z := "Fernsehturm"; 9%Z := "" ]};
     circleData := Some circle_three;
     currentArticleForAssignment := None;
     document := {[ "circle-panel" := blank; "circle-name" := blank;
                    "assigned-articles" := blank; "nearby-circles-panel" := blank;
                    "nearby-circles-list" := blank; "article-to-assign" := blank ]};
     window_parent := true;
     effects := [] |}.

(** The same page after [selectCircle("b")]. *)
Definition editor_b : Page float := snd (selectCircle "b" editor).

End Editor.

(** * Binary64 arithmetic *)

(** ** Facts on the specification of the operations *)

Module SF.
Local Open Scope Z_scope.

Lemma digits2_size (m : positive) : digits2_pos m = Pos.size m.
Proof. induction m; simpl; congruence. Qed.

Lemma digits2_bounds (m : positive) :
  2 ^ (Z.pos (digits2_pos m) - 1) <= Z.pos m < 2 ^ Z.pos (digits2_pos m).
Proof.
  rewrite digits2_size. split.
  - pose proof (Pos.size_le m) as Hle.
    assert (Hz : Z.pos (2 ^ Pos.size m) <= Z.pos m~0) by exact Hle.
    rewrite Pos2Z.inj_pow in Hz.
    replace (Z.pos (Pos.size m)) with (Z.succ (Z.pos (Pos.size m) - 1)) in Hz by lia.
    rewrite Z.pow_succ_r in Hz by lia. lia.
  - pose proof (Pos.size_gt m) as Hgt.
    assert (Hz : Z.pos m < Z.pos (2 ^ Pos.size m)) by exact Hgt.
    now rewrite Pos2Z.inj_pow in Hz.
Qed.

Lemma iter_xO (m d : positive) : Z.pos (Pos.iter xO m d) = Z.pos m * 2 ^ Z.pos d.
Proof.
  induction d as [|d IH] using Pos.peano_ind.
  - simpl. lia.
  - rewrite Pos.iter_succ, Pos2Z.inj_succ, Z.pow_succ_r by lia.
    rewrite Pos2Z.inj_xO, IH. lia.
Qed.

Lemma shl_align_spec (m : positive) (e e' : Z) :
  e' <= e ->
  Z.pos (fst (shl_align m e e')) = Z.pos m * 2 ^ (e - e') /\ snd (shl_align m e e') = e'.
Proof.
  intros Hle. unfold shl_align.
  destruct (e' - e) as [|p|p] eqn:Hd; simpl.
  - assert (e = e') by lia. subst. rewrite Z.sub_diag. simpl. lia.
  - lia.
  - rewrite iter_xO. replace (e - e') with (Z.pos p) by lia. auto.
Qed.

Lemma shl_align_ge (m : positive) (e e' : Z) :
  e <= e' -> shl_align m e e' = (m, e).
Proof.
  intros Hle. unfold shl_align. destruct (e' - e) eqn:Hd; auto. lia.
Qed.


Lemma shr_1_m (r : shr_record) :
  0 <= shr_m r -> shr_m (shr_1 r) = shr_m r / 2.
Proof.
  destruct r as [m b c]; simpl. intros Hm.
  destruct m as [|[p|p|]|p]; simpl; try reflexivity; try lia.
  - rewrite Pos2Z.inj_xI. apply (Z.div_unique _ 2 _ 1); lia.
  - rewrite Pos2Z.inj_xO. apply (Z.div_unique _ 2 _ 0); lia.
Qed.

Lemma iter_shr_1_m (n : positive) : forall r : shr_record,
  0 <= shr_m r -> shr_m (SpecFloat.iter_pos shr_1 n r) = shr_m r / 2 ^ Z.pos n.
Proof.
  induction n as [n IH|n IH|]; intros r Hr; simpl SpecFloat.iter_pos.
  - assert (H1 : 0 <= shr_m (shr_1 r)) by (rewrite shr_1_m by lia; apply Z.div_pos; lia).
    assert (H2 : 0 <= shr_m (SpecFloat.iter_pos shr_1 n (shr_1 r)))
      by (rewrite IH by lia; apply Z.div_pos; lia).
    rewrite IH, IH, shr_1_m by lia.
    rewrite !Z.div_div by lia. f_equal.
    replace (Z.pos n~1) with (1 + Z.pos n + Z.pos n) by lia.
    rewrite !Z.pow_add_r by lia. change (2 ^ 1) with 2. ring.
  - assert (H2 : 0 <= shr_m (SpecFloat.iter_pos shr_1 n r))
      by (rewrite IH by lia; apply Z.div_pos; lia).
    rewrite IH, IH by lia.
    rewrite !Z.div_div by lia. f_equal.
    replace (Z.pos n~0) with (Z.pos n + Z.pos n) by lia.
    rewrite Z.pow_add_r by lia. ring.
  - rewrite shr_1_m by lia. reflexivity.
Qed.

Lemma shr_record_of_loc_m (m : Z) (l : location) : shr_m (shr_record_of_loc m l) = m.
Proof. destruct l as [|[]]; reflexivity. Qed.

(** Shifting a positive mantissa to its canonical exponent leaves it positive,
    when the exponent is not below the smallest one. *)
Lemma shr_fexp_pos (m : positive) (e : Z) (l : location) :
  emin <= e ->
  exists r' e' m', shr_fexp prec emax (Z.pos m) e l = (r', e') /\
                   shr_m r' = Z.pos m' /\ emin <= e' /\ Z.pos m' <= Z.pos m.
Proof.
  intros He. unfold shr_fexp, shr.
  pose proof (digits2_bounds m) as [Hlo Hhi].
  set (d := Z.pos (digits2_pos m)) in *.
  simpl Zdigits2. fold d.
  destruct (fexp prec emax (d + e) - e) as [|n|n] eqn:Hn.
  - eexists _, _, m. split; [reflexivity|]. rewrite shr_record_of_loc_m. repeat split; lia.
  - assert (Hnd : Z.pos n = d - 53)
      by (unfold fexp, SpecFloat.emin, prec, emax in *; lia).
    assert (Hq : 2 ^ 52 <= Z.pos m / 2 ^ Z.pos n).
    { apply Z.div_le_lower_bound; [lia|].
      rewrite <- Z.pow_add_r by lia. replace (Z.pos n + 52) with (d - 1) by lia. lia. }
    assert (Hq' : Z.pos m / 2 ^ Z.pos n <= Z.pos m).
    { apply Z.div_le_upper_bound; [lia|].
      assert (1 <= 2 ^ Z.pos n) by (apply Z.pow_le_mono_r with (a:=2) (b:=0) (c:=Z.pos n) ; lia). nia. }
    destruct (Z.pos m / 2 ^ Z.pos n) as [|q|q] eqn:Hdiv; try lia.
    eexists _, _, q. split; [reflexivity|].
    rewrite iter_shr_1_m by (rewrite shr_record_of_loc_m; lia).
    rewrite shr_record_of_loc_m, Hdiv. repeat split; try lia.
  - eexists _, _, m. split; [reflexivity|]. rewrite shr_record_of_loc_m. repeat split; lia.
Qed.

Lemma round_nearest_even_pos (m : positive) (l : location) :
  exists m', round_nearest_even (Z.pos m) l = Z.pos m' /\ Z.pos m <= Z.pos m' <= Z.pos m + 1.
Proof.
  destruct l as [|[]]; unfold round_nearest_even.
  - exists m. lia.
  - destruct (Z.even (Z.pos m)).
    + exists m. lia.
    + exists (m + 1)%positive. lia.
  - exists m. lia.
  - exists (m + 1)%positive. lia.
Qed.

(** The sign of a number: [nonzero s x] says that [x] is a finite number
    other than zero, or an infinity, of sign [s]. *)
Definition nonzero (s : bool) (x : spec_float) : Prop :=
  match x with
  | S754_finite s' _ _ | S754_infinity s' => s' = s
  | _ => False
  end.

(** [signed s x]: [x] is not a number, or its sign bit is [s]. *)
Definition signed (s : bool) (x : spec_float) : Prop :=
  match x with
  | S754_zero s' | S754_finite s' _ _ | S754_infinity s' => s' = s
  | S754_nan => True
  end.

(** Rounding keeps the sign. *)
Lemma binary_round_aux_signed (s : bool) (m e : Z) (l : location) :
  signed s (binary_round_aux prec emax s m e l).
Proof.
  unfold binary_round_aux.
  destruct (shr_fexp prec emax m e l) as [r' e'].
  destruct (shr_fexp prec emax _ e' loc_Exact) as [r'' e''].
  destruct (shr_m r'') as [|q|q]; simpl; auto.
  destruct (e'' <=? emax - prec); simpl; auto.
Qed.

(** A positive mantissa at an exponent that is not below the smallest one
    is never rounded to zero. *)
Lemma binary_round_aux_nonzero (s : bool) (m : positive) (e : Z) (l : location) :
  emin <= e -> nonzero s (binary_round_aux prec emax s (Z.pos m) e l).
Proof.
  intros He. unfold binary_round_aux.
  destruct (shr_fexp_pos m e l He) as (r' & e' & m' & -> & Hm' & He' & _).
  rewrite Hm'.
  destruct (round_nearest_even_pos m' (loc_of_shr_record r')) as (m1 & -> & _).
  destruct (shr_fexp_pos m1 e' loc_Exact He') as (r'' & e'' & m'' & -> & -> & _ & _).
  destruct (e'' <=? emax - prec); simpl; auto.
Qed.

Lemma binary_round_nonzero (s : bool) (m : positive) (e : Z) :
  emin <= e -> nonzero s (binary_round prec emax s m e).
Proof.
  intros He. unfold binary_round.
  destruct (shl_align m e _) as [mz ez] eqn:Hal.
  apply binary_round_aux_nonzero.
  destruct (Z_le_gt_dec (fexp prec emax (Z.pos (digits2_pos m) + e)) e) as [Hle|Hgt].
  - pose proof (shl_align_spec m e _ Hle) as [_ Hs]. rewrite Hal in Hs. simpl in Hs.
    subst ez. unfold fexp, SpecFloat.emin, prec, emax. lia.
  - rewrite shl_align_ge in Hal by lia. congruence.
Qed.

(** The sign of the rounded value of the integer [m] at exponent [e]. *)
Lemma binary_normalize_sign (m e : Z) :
  emin <= e ->
  match m with
  | Z0 => binary_normalize prec emax m e false = S754_zero false
  | Z.pos _ => nonzero false (binary_normalize prec emax m e false)
  | Z.neg _ => nonzero true (binary_normalize prec emax m e false)
  end.
Proof.
  intros He. destruct m; simpl; auto using binary_round_nonzero.
Qed.

(** *** Validity *)

Lemma bounded_inv (m : positive) (e : Z) :
  SpecFloat.bounded prec emax m e = true ->
  emin <= e <= 971 /\ Z.pos (digits2_pos m) <= 53 /\
  (emin < e -> Z.pos (digits2_pos m) = 53).
Proof.
  unfold SpecFloat.bounded, canonical_mantissa. rewrite andb_true_iff, Z.eqb_eq, Z.leb_le.
  unfold fexp, SpecFloat.emin, prec, emax. lia.
Qed.

(** The integer that a finite number is a multiple of [2 ^ ez] by. *)
Definition aligned (s : bool) (m : positive) (e ez : Z) : Z :=
  cond_Zopp s (Z.pos (fst (shl_align m e ez))).

Lemma aligned_spec (s : bool) (m : positive) (e ez : Z) :
  ez <= e -> aligned s m e ez = cond_Zopp s (Z.pos m * 2 ^ (e - ez)).
Proof.
  intros Hle. unfold aligned. now destruct (shl_align_spec m e ez Hle) as [-> _].
Qed.

Lemma pow2_ge_2 (k : Z) : 0 < k -> 2 <= 2 ^ k.
Proof.
  intros Hk. change 2 with (2 ^ 1) at 1. apply Z.pow_le_mono_r; lia.
Qed.

(** Of two valid positive numbers, the one with the smaller exponent is the
    smaller. *)
Lemma lt_of_exponent (mx my : positive) (ex ey : Z) :
  SpecFloat.bounded prec emax mx ex = true -> SpecFloat.bounded prec emax my ey = true ->
  ex < ey -> Z.pos mx < Z.pos my * 2 ^ (ey - ex).
Proof.
  intros Hx Hy Hlt.
  apply bounded_inv in Hx as (Hex & Hdx & _).
  apply bounded_inv in Hy as (Hey & _ & Hdy).
  pose proof (digits2_bounds mx) as [_ Hmx].
  pose proof (digits2_bounds my) as [Hmy _].
  rewrite Hdy in Hmy by lia.
  assert (Hp : 2 ^ Z.pos (digits2_pos mx) <= 2 ^ 53) by (apply Z.pow_le_mono_r; lia).
  pose proof (pow2_ge_2 (ey - ex) ltac:(lia)) as H2.
  change (2 ^ (53 - 1)) with 4503599627370496 in Hmy.
  change (2 ^ 53) with 9007199254740992 in Hp.
  nia.
Qed.

Lemma compare_aligned (sx sy : bool) (mx my : positive) (ex ey : Z) :
  SpecFloat.bounded prec emax mx ex = true -> SpecFloat.bounded prec emax my ey = true ->
  SFcompare (S754_finite sx mx ex) (S754_finite sy my ey) =
  Some (aligned sx mx ex (Z.min ex ey) ?= aligned sy my ey (Z.min ex ey)).
Proof.
  intros Hx Hy. rewrite !aligned_spec by lia. simpl SFcompare. f_equal.
  assert (Hpx : 0 < 2 ^ (ex - Z.min ex ey)) by (apply Z.pow_pos_nonneg; lia).
  assert (Hpy : 0 < 2 ^ (ey - Z.min ex ey)) by (apply Z.pow_pos_nonneg; lia).
  destruct sx, sy; simpl cond_Zopp.
  - destruct (Z.compare_spec ex ey) as [Heq|Hlt|Hgt].
    + subst ey. rewrite Z.min_id, Z.sub_diag. change (2 ^ 0) with 1. rewrite !Z.mul_1_r.
      rewrite Z.compare_opp. simpl. change (Pos.compare_cont Eq mx my) with (mx ?= my)%positive.
      symmetry. apply Pos.compare_antisym.
    + pose proof (lt_of_exponent mx my ex ey Hx Hy Hlt).
      rewrite Z.min_l, Z.sub_diag in * by lia. change (2 ^ 0) with 1 in *.
      symmetry. apply Z.compare_gt_iff. lia.
    + pose proof (lt_of_exponent my mx ey ex Hy Hx ltac:(lia)).
      rewrite Z.min_r, Z.sub_diag in * by lia. change (2 ^ 0) with 1 in *.
      symmetry. apply Z.compare_lt_iff. lia.
  - symmetry. apply Z.compare_lt_iff. lia.
  - symmetry. apply Z.compare_gt_iff. lia.
  - destruct (Z.compare_spec ex ey) as [Heq|Hlt|Hgt].
    + subst ey. rewrite Z.min_id, Z.sub_diag. change (2 ^ 0) with 1. rewrite !Z.mul_1_r.
      reflexivity.
    + pose proof (lt_of_exponent mx my ex ey Hx Hy Hlt).
      rewrite Z.min_l, Z.sub_diag in * by lia. change (2 ^ 0) with 1 in *.
      symmetry. apply Z.compare_lt_iff. lia.
    + pose proof (lt_of_exponent my mx ey ex Hy Hx ltac:(lia)).
      rewrite Z.min_r, Z.sub_diag in * by lia. change (2 ^ 0) with 1 in *.
      symmetry. apply Z.compare_gt_iff. lia.
Qed.

(** *** The sign of a difference *)

Lemma SFsub_finite_sign (sx sy : bool) (mx my : positive) (ex ey : Z) :
  SpecFloat.bounded prec emax mx ex = true -> SpecFloat.bounded prec emax my ey = true ->
  let r := SFsub prec emax (S754_finite sx mx ex) (S754_finite sy my ey) in
  match SFcompare (S754_finite sy my ey) (S754_finite sx mx ex) with
  | Some Lt => nonzero false r
  | Some Gt => nonzero true r
  | _ => r = S754_zero false
  end.
Proof.
  intros Hx Hy r. rewrite (compare_aligned sy sx my mx ey ex Hy Hx).
  subst r. unfold SFsub. fold (aligned sx mx ex (Z.min ex ey)).
  fold (aligned sy my ey (Z.min ex ey)). rewrite (Z.min_comm ey ex).
  set (X := aligned sx mx ex (Z.min ex ey)). set (Y := aligned sy my ey (Z.min ex ey)).
  assert (He : emin <= Z.min ex ey).
  { apply bounded_inv in Hx as (? & _). apply bounded_inv in Hy as (? & _). lia. }
  pose proof (binary_normalize_sign (X - Y) _ He) as Hs.
  destruct (Z.compare_spec Y X) as [Heq|Hlt|Hgt].
  - replace (X - Y) with 0 in * by lia. exact Hs.
  - destruct (X - Y) eqn:HD; try lia. exact Hs.
  - destruct (X - Y) eqn:HD; try lia. exact Hs.
Qed.

Lemma SFltb_sub (x y : spec_float) :
  valid_binary x = true -> valid_binary y = true ->
  SFltb (S754_zero false) (SFsub prec emax x y) = SFltb y x.
Proof.
  intros Hx Hy.
  destruct x as [[]|[]| |sx mx ex], y as [[]|[]| |sy my ey]; try reflexivity;
    try (destruct sx; reflexivity); try (destruct sy; reflexivity).
  pose proof (SFsub_finite_sign sx sy mx my ex ey Hx Hy) as Hs. cbv zeta in Hs.
  unfold SFltb at 2.
  destruct (SFcompare (S754_finite sy my ey) (S754_finite sx mx ex)) as [[]|];
    try (rewrite Hs; reflexivity);
    destruct (SFsub prec emax _ _) as [?|[]| |[] ? ?]; simpl in Hs; try easy.
Qed.

(** *** The order *)

Lemma SFcompare_antisym (x y : spec_float) :
  SFcompare y x = option_map CompOpp (SFcompare x y).
Proof.
  destruct x as [[]|[]| |sx mx ex], y as [[]|[]| |sy my ey]; try reflexivity;
    try (destruct sx; reflexivity); try (destruct sy; reflexivity).
  simpl. f_equal. rewrite (Z.compare_antisym ex ey).
  change (Pos.compare_cont Eq my mx) with (my ?= mx)%positive.
  change (Pos.compare_cont Eq mx my) with (mx ?= my)%positive.
  rewrite (Pos.compare_antisym mx my).
  destruct sx, sy, (ex ?= ey), (my ?= mx)%positive; reflexivity.
Qed.

Lemma SFcompare_refl (x : spec_float) :
  x <> S754_nan -> SFcompare x x = Some Eq.
Proof.
  destruct x as [[]|[]| |[] m e]; try easy; intros _; simpl;
    rewrite Z.compare_refl, Pos.compare_cont_refl; reflexivity.
Qed.

Lemma SFcompare_eq (x y : spec_float) :
  SFcompare x y = Some Eq ->
  match x, y with
  | S754_zero _, S754_zero _ => True
  | S754_nan, _ | _, S754_nan => False
  | _, _ => x = y
  end.
Proof.
  destruct x as [[]|[]| |sx mx ex], y as [[]|[]| |sy my ey]; try easy;
    try (destruct sx; easy); try (destruct sy; easy).
  simpl. intros Hc.
  assert (Hs : sx = sy /\ (ex ?= ey) = Eq /\ Pos.compare_cont Eq mx my = Eq).
  { destruct sx, sy, (ex ?= ey), (Pos.compare_cont Eq mx my); try easy. }
  destruct Hs as (-> & He & Hm). apply Z.compare_eq in He. apply Pos.compare_eq in Hm.
  congruence.
Qed.

(** Two numbers equal to a third one are not strictly ordered. *)
Lemma SFeqb_not_ltb (x y k : spec_float) :
  SFeqb x k = true -> SFeqb y k = true -> SFltb y x = false.
Proof.
  unfold SFeqb, SFltb. intros Hx Hy.
  destruct (SFcompare x k) as [[]|] eqn:Hxk; try easy.
  destruct (SFcompare y k) as [[]|] eqn:Hyk; try easy.
  apply SFcompare_eq in Hxk, Hyk.
  destruct k as [sk|sk| |sk mk ek].
  - destruct x as [| | |], y as [| | |]; try easy.
  - destruct x as [| | |]; try easy; destruct y as [| | |]; try easy;
      injection Hxk as ->; injection Hyk as ->; destruct sk; reflexivity.
  - destruct x; easy.
  - destruct x as [| | |]; try easy; destruct y as [| | |]; try easy.
    rewrite Hxk, Hyk. rewrite SFcompare_refl; easy.
Qed.

Lemma SFleb_total (x y : spec_float) :
  x <> S754_nan -> y <> S754_nan -> SFltb y x = false -> SFleb x y = true.
Proof.
  unfold SFltb, SFleb. rewrite (SFcompare_antisym x y). intros Hx Hy.
  destruct (SFcompare x y) as [[]|] eqn:Hc; try easy.
  destruct x as [[]|[]| |[] ? ?]; try easy;
    destruct y as [[]|[]| |[] ? ?]; try easy.
Qed.

Lemma SFltb_leb (x y : spec_float) : SFltb x y = true -> SFleb x y = true.
Proof. unfold SFltb, SFleb. now destruct (SFcompare x y) as [[]|]. Qed.

Lemma SFleb_ltb_eqb (x y : spec_float) : SFleb x y = SFltb x y || SFeqb x y.
Proof. unfold SFltb, SFleb, SFeqb. now destruct (SFcompare x y) as [[]|]. Qed.

Lemma SFleb_number (x y : spec_float) :
  SFleb x y = true -> x <> S754_nan /\ y <> S754_nan.
Proof.
  destruct x as [[]|[]| |[] ? ?]; try easy;
    destruct y as [[]|[]| |[] ? ?]; try easy.
Qed.

(** *** Magnitudes: no overflow *)

Lemma Zdigits2_le (m k : Z) : 0 <= m < 2 ^ k -> 0 <= k -> Zdigits2 m <= k.
Proof.
  intros [Hm Hk] Hk0. destruct m as [|p|p]; simpl; try lia.
  pose proof (digits2_bounds p) as [Hlo _].
  assert (Hlt : 2 ^ (Z.pos (digits2_pos p) - 1) < 2 ^ k) by lia.
  apply Z.pow_lt_mono_r_iff in Hlt; lia.
Qed.

Lemma Zdigits2_nonneg (m : Z) : 0 <= Zdigits2 m.
Proof. destruct m; simpl; lia. Qed.

Lemma Zdigits2_lt (m : Z) : 0 <= m -> m < 2 ^ Zdigits2 m.
Proof.
  destruct m as [|p|p]; simpl; try lia. intros _. apply digits2_bounds.
Qed.

Lemma Zdigits2_succ (m m' : Z) : 0 <= m' <= m + 1 -> 0 <= m -> Zdigits2 m' <= Zdigits2 m + 1.
Proof.
  intros Hm' Hm. pose proof (Zdigits2_lt m Hm) as Hlt. pose proof (Zdigits2_nonneg m).
  apply Zdigits2_le; [|lia]. rewrite Z.pow_add_r by lia. change (2 ^ 1) with 2. lia.
Qed.

Lemma Zdigits2_mul (p q : positive) :
  Z.pos (digits2_pos (p * q)) <= Z.pos (digits2_pos p) + Z.pos (digits2_pos q).
Proof.
  pose proof (digits2_bounds p) as [_ Hp]. pose proof (digits2_bounds q) as [_ Hq].
  apply (Zdigits2_le (Z.pos (p * q))); [|lia].
  rewrite Z.pow_add_r, Pos2Z.inj_mul by lia. nia.
Qed.

Lemma Zdigits2_div (m n : Z) :
  0 <= m -> 0 <= n -> Zdigits2 (m / 2 ^ n) + n <= Z.max (Zdigits2 m) n.
Proof.
  intros Hm Hn. assert (Hp : 0 < 2 ^ n) by (apply Z.pow_pos_nonneg; lia).
  pose proof (Zdigits2_lt m Hm) as Hlt. pose proof (Zdigits2_nonneg m) as Hd.
  destruct (Z_le_gt_dec n (Zdigits2 m)) as [Hle|Hgt].
  - assert (Zdigits2 (m / 2 ^ n) <= Zdigits2 m - n); [|lia].
    apply Zdigits2_le; [|lia]. split; [apply Z.div_pos; lia|].
    apply Z.div_lt_upper_bound; [lia|]. rewrite <- Z.pow_add_r by lia.
    now replace (n + (Zdigits2 m - n)) with (Zdigits2 m) by lia.
  - assert (Hz : m / 2 ^ n = 0); [|rewrite Hz; simpl; lia].
    apply Z.div_small. split; [lia|].
    assert (2 ^ Zdigits2 m <= 2 ^ n) by (apply Z.pow_le_mono_r; lia). lia.
Qed.

(** The canonical shift: the mantissa does not grow, and neither does the
    magnitude, unless the exponent itself is raised above it. *)
Lemma shr_fexp_le (m e : Z) (l : location) :
  0 <= m ->
  exists r' e', shr_fexp prec emax m e l = (r', e') /\
                0 <= shr_m r' <= m /\
                e' <= Z.max e (fexp prec emax (Zdigits2 m + e)) /\
                Zdigits2 (shr_m r') + e' <= Z.max (Zdigits2 m + e) e'.
Proof.
  intros Hm. unfold shr_fexp, shr.
  destruct (fexp prec emax (Zdigits2 m + e) - e) as [|n|n] eqn:Hn.
  - eexists _, _. split; [reflexivity|]. rewrite shr_record_of_loc_m. lia.
  - eexists _, _. split; [reflexivity|].
    rewrite iter_shr_1_m by (rewrite shr_record_of_loc_m; lia).
    rewrite shr_record_of_loc_m.
    assert (Hp : 0 < 2 ^ Z.pos n) by (apply Z.pow_pos_nonneg; lia).
    pose proof (Zdigits2_div m (Z.pos n) Hm ltac:(lia)).
    repeat split; try lia.
    + apply Z.div_pos; lia.
    + apply Z.div_le_upper_bound; nia.
  - eexists _, _. split; [reflexivity|]. rewrite shr_record_of_loc_m. lia.
Qed.

Lemma round_nearest_even_le (m : Z) (l : location) :
  0 <= m -> m <= round_nearest_even m l <= m + 1.
Proof.
  intros Hm. destruct l as [|[]]; unfold round_nearest_even; try lia.
  destruct (Z.even m); lia.
Qed.

(** [magnitude B x]: [x] is zero, or a finite number below [2 ^ B] in
    absolute value. *)
Definition magnitude (B : Z) (x : spec_float) : Prop :=
  match x with
  | S754_zero _ => True
  | S754_finite _ m e => Z.pos (digits2_pos m) + e <= B
  | _ => False
  end.

Definition finite_or_zero (x : spec_float) : Prop :=
  match x with
  | S754_zero _ | S754_finite _ _ _ => True
  | _ => False
  end.

Lemma magnitude_finite (B : Z) (x : spec_float) : magnitude B x -> finite_or_zero x.
Proof. destruct x; simpl; auto. Qed.

Lemma magnitude_mono (B B' : Z) (x : spec_float) : B <= B' -> magnitude B x -> magnitude B' x.
Proof. destruct x; simpl; auto. lia. Qed.

(** No overflow: a mantissa of magnitude at most [B <= 971] is rounded
    to a finite number, of magnitude at most [B + 1]. *)
Lemma binary_round_aux_magnitude (s : bool) (m e : Z) (l : location) (B : Z) :
  0 <= m -> Zdigits2 m + e <= B -> -1000 <= B <= 971 ->
  magnitude (B + 1) (binary_round_aux prec emax s m e l).
Proof.
  intros Hm Hmag HB. unfold binary_round_aux.
  pose proof (Zdigits2_nonneg m) as Hd.
  destruct (shr_fexp_le m e l Hm) as (r' & e' & -> & Hr' & He' & Hmag').
  pose proof (round_nearest_even_le (shr_m r') (loc_of_shr_record r') ltac:(lia)) as Hrd.
  set (m2 := round_nearest_even _ _) in *.
  pose proof (Zdigits2_succ (shr_m r') m2 ltac:(lia) ltac:(lia)) as Hd2.
  pose proof (Zdigits2_nonneg (shr_m r')) as Hd1.
  destruct (shr_fexp_le m2 e' loc_Exact) as (r'' & e'' & -> & Hr'' & He'' & Hmag''); [lia|].
  unfold fexp, SpecFloat.emin, prec, emax in *.
  destruct (shr_m r'') as [|q|q] eqn:Hq; simpl; try lia; auto.
  simpl Zdigits2 in Hmag''.
  destruct (Z.leb_spec e'' (1024 - 53)); simpl; lia.
Qed.

Lemma SFmul_magnitude (B1 B2 : Z) (x y : spec_float) :
  magnitude B1 x -> magnitude B2 y -> -1000 <= B1 + B2 <= 971 ->
  magnitude (B1 + B2 + 1) (SFmul prec emax x y).
Proof.
  intros Hx Hy HB.
  destruct x as [[]|[]| |sx mx ex]; try easy;
    destruct y as [[]|[]| |sy my ey]; try easy.
  simpl in Hx, Hy. simpl SFmul.
  apply binary_round_aux_magnitude; try lia.
  pose proof (Zdigits2_mul mx my). simpl Zdigits2. lia.
Qed.

(** A valid number between [-b] and [b], where [b] has exponent [e1], is
    below [2 ^ (53 + e1)] in absolute value. *)
Lemma SFleb_exponent (s : bool) (m m1 m2 : positive) (e e1 : Z) :
  SFleb (S754_finite true m1 e1) (S754_finite s m e) = true ->
  SFleb (S754_finite s m e) (S754_finite false m2 e1) = true ->
  e <= e1.
Proof.
  unfold SFleb, SFcompare. rewrite (Z.compare_antisym e e1).
  destruct s; destruct (Z.compare_spec e e1); simpl; try lia; easy.
Qed.

Lemma SFleb_magnitude (x : spec_float) (m1 m2 : positive) (e1 : Z) :
  valid_binary x = true ->
  SFleb (S754_finite true m1 e1) x = true ->
  SFleb x (S754_finite false m2 e1) = true ->
  magnitude (53 + e1) x.
Proof.
  intros Vx Hlo Hhi. destruct x as [[]|[]| |s m e]; try easy.
  simpl. apply bounded_inv in Vx as (_ & Hd & _).
  pose proof (SFleb_exponent s m m1 m2 e e1 Hlo Hhi). lia.
Qed.

Lemma SFdiv_magnitude (B : Z) (x : spec_float) (sy : bool) (my : positive) (ey : Z) (L : Z) :
  magnitude B x -> L <= Z.pos (digits2_pos my) + ey -> Z.pos (digits2_pos my) <= 53 ->
  -1000 <= B - L + 53 <= 971 ->
  magnitude (B - L + 54) (SFdiv prec emax x (S754_finite sy my ey)).
Proof.
  intros Hx HL Hdy HB. destruct x as [[]|[]| |sx mx ex]; try easy.
  simpl in Hx. simpl SFdiv. unfold SFdiv_core_binary.
  set (d1 := Zdigits2 (Z.pos mx)). set (d2 := Zdigits2 (Z.pos my)).
  assert (Hd1 : d1 = Z.pos (digits2_pos mx)) by reflexivity.
  assert (Hd2 : d2 = Z.pos (digits2_pos my)) by reflexivity.
  set (e' := Z.min (fexp prec emax (d1 + ex - (d2 + ey))) (ex - ey)).
  assert (He' : e' <= ex - ey) by (unfold e'; lia).
  set (s := ex - ey - e').
  set (m' := match s with Z.pos _ => Z.shiftl (Z.pos mx) s | 0 => Z.pos mx | Z.neg _ => 0 end).
  assert (Hs : 0 <= s) by (unfold s; lia).
  assert (Hm' : m' = Z.pos mx * 2 ^ s).
  { unfold m'. clearbody s. destruct s as [|p|p].
    - change (2 ^ 0) with 1. lia.
    - rewrite Z.shiftl_mul_pow2 by lia. reflexivity.
    - lia. }
  assert (Hps : 0 < 2 ^ s) by (apply Z.pow_pos_nonneg; lia).
  destruct (Z.div_eucl m' (Z.pos my)) as [q r] eqn:Hdiv.
  assert (Hq : q = m' / Z.pos my) by (unfold Z.div; now rewrite Hdiv).
  pose proof (digits2_bounds mx) as [_ Hmx]. pose proof (digits2_bounds my) as [Hmy _].
  rewrite <- Hd1 in Hmx. rewrite <- Hd2 in Hmy.
  assert (Hq0 : 0 <= q) by (subst q; apply Z.div_pos; lia).
  assert (Hqm : q * Z.pos my <= m').
  { subst q. rewrite Z.mul_comm. apply Z.mul_div_le. lia. }
  assert (Hdq : Zdigits2 q <= Z.max (d1 + s - d2 + 1) 0).
  { destruct (Z_le_gt_dec 0 (d1 + s - d2 + 1)) as [Hk|Hk].
    - rewrite Z.max_l by lia. apply Zdigits2_le; [|lia]. split; [lia|].
      assert (Hlt : q * 2 ^ (d2 - 1) < 2 ^ (d1 + s)).
      { rewrite Z.pow_add_r by lia.
        assert (0 < 2 ^ (d2 - 1)) by (apply Z.pow_pos_nonneg; lia). nia. }
      replace (d1 + s) with ((d1 + s - d2 + 1) + (d2 - 1)) in Hlt by lia.
      rewrite Z.pow_add_r in Hlt by lia.
      assert (0 < 2 ^ (d2 - 1)) by (apply Z.pow_pos_nonneg; lia). nia.
    - assert (Hz : q = 0); [|rewrite Hz; simpl; lia].
      subst q. apply Z.div_small. split; [lia|].
      assert (Hle : 2 ^ (d1 + s) <= 2 ^ (d2 - 1)) by (apply Z.pow_le_mono_r; lia).
      rewrite Z.pow_add_r in Hle by lia. nia. }
  eapply magnitude_mono; [|apply (binary_round_aux_magnitude _ q e' _ (B - L + 53))]; lia.
Qed.

(** A finite number times zero, times zero, added to zero. *)
Lemma SFadd_mul_zero (x : spec_float) :
  finite_or_zero x ->
  SFadd prec emax (S754_zero false)
    (SFmul prec emax (SFmul prec emax x (S754_zero false)) (S754_zero false)) =
  S754_zero false.
Proof. destruct x as [[]|[]| |[] ? ?]; easy. Qed.

(** *** Signs *)

Lemma SFmul_signed (x y : spec_float) :
  SFltb x (S754_zero false) = false -> SFltb y (S754_zero false) = false ->
  SFltb (SFmul prec emax x y) (S754_zero false) = false.
Proof.
  intros Hx Hy.
  destruct x as [[]|[]| |[] mx ex]; try easy;
    destruct y as [[]|[]| |[] my ey]; try easy.
  simpl SFmul.
  pose proof (binary_round_aux_signed false (Z.pos (mx * my)) (ex + ey) loc_Exact) as Hs.
  destruct (binary_round_aux _ _ _ _ _ _) as [[]|[]| |[] ? ?]; easy.
Qed.

Lemma SFsqrt_signed (x : spec_float) :
  SFltb (SFsqrt prec emax x) (S754_zero false) = false.
Proof.
  destruct x as [[]|[]| |[] mx ex]; try easy.
  simpl SFsqrt. destruct (SFsqrt_core_binary _ _ _ _) as [[mz ez] lz].
  pose proof (binary_round_aux_signed false mz ez lz) as Hs.
  destruct (binary_round_aux _ _ _ _ _ _) as [[]|[]| |[] ? ?]; easy.
Qed.

(** A number that is not negative is not below a negative one. *)
Lemma SFleb_negative (x y : spec_float) :
  SFltb x (S754_zero false) = false -> SFltb y (S754_zero false) = true ->
  SFleb x y = false.
Proof.
  destruct x as [[]|[]| |[] ? ?]; try easy;
    destruct y as [[]|[]| |[] ? ?]; try easy.
Qed.

(** A square is not negative, and the sum of a number that is not negative
    and of any number is not [-0]. *)
Lemma SFmul_self_signed (x : spec_float) : signed false (SFmul prec emax x x).
Proof.
  destruct x as [[]|[]| |s m e]; simpl; auto.
  rewrite xorb_nilpotent. apply binary_round_aux_signed.
Qed.

Lemma SFadd_neg_zero (x y : spec_float) :
  valid_binary x = true -> valid_binary y = true -> signed false x ->
  SFadd prec emax x y <> S754_zero true.
Proof.
  intros Vx Vy Hx.
  destruct x as [[]|[]| |sx mx ex]; try easy;
    destruct y as [[]|[]| |sy my ey]; try easy.
  simpl in Hx. subst sx. unfold SFadd.
  assert (He : emin <= Z.min ex ey).
  { apply bounded_inv in Vx as (? & _). apply bounded_inv in Vy as (? & _). lia. }
  match goal with |- binary_normalize _ _ ?D _ _ <> _ =>
    pose proof (binary_normalize_sign D _ He) as Hs; destruct D end.
  - now rewrite Hs.
  - destruct (binary_normalize _ _ _ _ _); easy.
  - destruct (binary_normalize _ _ _ _ _); easy.
Qed.

Lemma SFsqrt_neg_zero (x : spec_float) :
  SFsqrt prec emax x = S754_zero true -> x = S754_zero true.
Proof.
  destruct x as [[]|[]| |[] mx ex]; try easy.
  simpl SFsqrt. destruct (SFsqrt_core_binary _ _ _ _) as [[mz ez] lz].
  pose proof (binary_round_aux_signed false mz ez lz) as Hs.
  destruct (binary_round_aux _ _ _ _ _ _) as [[]|[]| |[] ? ?]; easy.
Qed.

Lemma SFltb_asym (x y : spec_float) : SFltb x y = true -> SFltb y x = false.
Proof.
  unfold SFltb. rewrite (SFcompare_antisym x y).
  now destruct (SFcompare x y) as [[]|].
Qed.

Lemma SFltb_number (x y : spec_float) :
  SFltb x y = true -> x <> S754_nan /\ y <> S754_nan.
Proof.
  destruct x as [[]|[]| |[] ? ?]; try easy;
    destruct y as [[]|[]| |[] ? ?]; try easy.
Qed.

(** *** Opposites *)

Lemma binary_round_aux_opp (s : bool) (m e : Z) (l : location) :
  binary_round_aux prec emax (negb s) m e l = SFopp (binary_round_aux prec emax s m e l).
Proof.
  unfold binary_round_aux.
  destruct (shr_fexp prec emax m e l) as [r' e'].
  destruct (shr_fexp prec emax _ e' loc_Exact) as [r'' e''].
  destruct (shr_m r'') as [|q|q]; simpl; auto.
  destruct (e'' <=? emax - prec); reflexivity.
Qed.

Lemma binary_normalize_opp (m e : Z) :
  m <> 0 ->
  binary_normalize prec emax (- m) e false = SFopp (binary_normalize prec emax m e false).
Proof.
  intros Hm. destruct m as [|p|p]; [congruence| |]; simpl; unfold binary_round;
    destruct (shl_align p e _) as [mz ez].
  - apply (binary_round_aux_opp false).
  - rewrite (binary_round_aux_opp false). destruct (binary_round_aux _ _ _ _ _ _) as [[]|[]| |[] ? ?]; reflexivity.
Qed.

Lemma SFmul_opp_l (x y : spec_float) :
  SFmul prec emax (SFopp x) y = SFopp (SFmul prec emax x y).
Proof.
  destruct x as [[]|[]| |sx mx ex], y as [[]|[]| |sy my ey]; try reflexivity;
    try (destruct sx; reflexivity); try (destruct sy; reflexivity).
  simpl. rewrite <- binary_round_aux_opp. now rewrite negb_xorb_l.
Qed.

Lemma SFdiv_opp_l (x y : spec_float) :
  SFdiv prec emax (SFopp x) y = SFopp (SFdiv prec emax x y).
Proof.
  destruct x as [[]|[]| |sx mx ex], y as [[]|[]| |sy my ey]; try reflexivity;
    try (destruct sx; reflexivity); try (destruct sy; reflexivity).
  simpl. destruct (SFdiv_core_binary _ _ _ _ _ _) as [[mz ez] lz].
  rewrite <- binary_round_aux_opp. now rewrite negb_xorb_l.
Qed.

Lemma SFmul_opp_opp (x : spec_float) :
  SFmul prec emax (SFopp x) (SFopp x) = SFmul prec emax x x.
Proof. destruct x as [[]|[]| |[] mx ex]; reflexivity. Qed.

Lemma SFmul_comm (x y : spec_float) : SFmul prec emax x y = SFmul prec emax y x.
Proof.
  destruct x as [[]|[]| |sx mx ex], y as [[]|[]| |sy my ey]; try reflexivity;
    try (destruct sx; reflexivity); try (destruct sy; reflexivity).
  simpl. now rewrite xorb_comm, Pos.mul_comm, Z.add_comm.
Qed.

(** The two differences of two numbers are opposite, or both [+0]. *)
Lemma SFsub_swap (x y : spec_float) :
  SFsub prec emax y x = SFopp (SFsub prec emax x y) \/
  (SFsub prec emax x y = S754_zero false /\ SFsub prec emax y x = S754_zero false).
Proof.
  destruct x as [[]|[]| |sx mx ex], y as [[]|[]| |sy my ey]; auto;
    try (destruct sx; auto; fail); try (destruct sy; auto; fail).
  unfold SFsub. rewrite (Z.min_comm ey ex).
  set (X := cond_Zopp sx _). set (Y := cond_Zopp sy _).
  destruct (Z.eq_dec (X - Y) 0) as [Hz|Hnz].
  - right. replace (Y - X) with 0 by lia. rewrite Hz. auto.
  - left. replace (Y - X) with (- (X - Y)) by lia. now apply binary_normalize_opp.
Qed.

Lemma SFeqb_opp_zero (x : spec_float) :
  SFeqb (SFopp x) (S754_zero false) = SFeqb x (S754_zero false).
Proof. destruct x as [[]|[]| |[] ? ?]; reflexivity. Qed.

Lemma SFltb_opp_zero (x : spec_float) :
  SFltb (SFopp x) (S754_zero false) = SFltb (S754_zero false) x.
Proof. destruct x as [[]|[]| |[] ? ?]; reflexivity. Qed.

(** A number is zero, below zero or above zero. *)
Lemma SFcompare_zero (x : spec_float) :
  SFeqb x (S754_zero false) = false -> SFltb x (S754_zero false) = false ->
  SFltb (S754_zero false) x = false -> x = S754_nan.
Proof. destruct x as [[]|[]| |[] ? ?]; try reflexivity; discriminate. Qed.

End SF.

(** ** Binary64 facts, on the primitive numbers *)

Module B64.
Import SF.

Lemma Prim2SF_number (x : float) : is_nan x = false <-> Prim2SF x <> S754_nan.
Proof.
  unfold is_nan. rewrite FloatAxioms.eqb_spec. unfold SFeqb. split.
  - intros Heq Hnan. rewrite Hnan in Heq. discriminate.
  - intros Hn. now rewrite SFcompare_refl.
Qed.

Lemma Prim2SF_finite (x : float) : is_finite x = true <-> finite_or_zero (Prim2SF x).
Proof.
  unfold is_finite, is_nan, is_infinity. rewrite !FloatAxioms.eqb_spec, abs_spec.
  change (Prim2SF infinity) with (S754_infinity false).
  destruct (Prim2SF x) as [[]|[]| |[] m e]; simpl; unfold SFeqb; simpl;
    rewrite ?Z.compare_refl, ?Pos.compare_cont_refl; simpl; intuition congruence.
Qed.

Lemma ltb_sub (x y : float) : (0 <? x - y)%float = (y <? x)%float.
Proof.
  rewrite !FloatAxioms.ltb_spec, sub_spec. change (Prim2SF 0) with (S754_zero false).
  apply SFltb_sub; apply Prim2SF_valid.
Qed.

Lemma leb_ltb_eqb (x y : float) : (x <=? y)%float = ((x <? y) || (x =? y))%float.
Proof. rewrite FloatAxioms.leb_spec, FloatAxioms.ltb_spec, FloatAxioms.eqb_spec. apply SFleb_ltb_eqb. Qed.

Lemma ltb_leb (x y : float) : (x <? y)%float = true -> (x <=? y)%float = true.
Proof. rewrite FloatAxioms.leb_spec, FloatAxioms.ltb_spec. apply SFltb_leb. Qed.

Lemma leb_number (x y : float) :
  (x <=? y)%float = true -> is_nan x = false /\ is_nan y = false.
Proof. rewrite FloatAxioms.leb_spec, !Prim2SF_number. apply SFleb_number. Qed.

Lemma leb_total (x y : float) :
  is_nan x = false -> is_nan y = false -> (y <? x)%float = false -> (x <=? y)%float = true.
Proof. rewrite FloatAxioms.leb_spec, FloatAxioms.ltb_spec, !Prim2SF_number. apply SFleb_total. Qed.

Lemma leb_refl (x : float) : is_nan x = false -> (x <=? x)%float = true.
Proof.
  rewrite FloatAxioms.leb_spec, Prim2SF_number. intros Hx. unfold SFleb. now rewrite SFcompare_refl.
Qed.

Lemma eqb_not_ltb (x y k : float) :
  (x =? k)%float = true -> (y =? k)%float = true -> (y <? x)%float = false.
Proof. rewrite !FloatAxioms.eqb_spec, FloatAxioms.ltb_spec. apply SFeqb_not_ltb. Qed.

Lemma sub_diag (x : float) : is_finite x = true -> (x - x)%float = 0%float.
Proof.
  rewrite Prim2SF_finite. intros Hx. apply Prim2SF_inj. rewrite sub_spec.
  change (Prim2SF 0) with (S754_zero false).
  destruct (Prim2SF x) as [[]|[]| |s m e] eqn:Hp; try easy.
  pose proof (Prim2SF_valid x) as Hv. rewrite Hp in Hv.
  pose proof (SFsub_finite_sign s s m m e e Hv Hv) as Hs. cbv zeta in Hs.
  now rewrite SFcompare_refl in Hs.
Qed.

Lemma mul_signed (x y : float) :
  (x <? 0)%float = false -> (y <? 0)%float = false -> (x * y <? 0)%float = false.
Proof. rewrite !FloatAxioms.ltb_spec, mul_spec. apply SFmul_signed. Qed.

Lemma sqrt_signed (x : float) : (PrimFloat.sqrt x <? 0)%float = false.
Proof. rewrite FloatAxioms.ltb_spec, sqrt_spec. apply SFsqrt_signed. Qed.

Lemma leb_negative (x y : float) :
  (x <? 0)%float = false -> (y <? 0)%float = true -> (x <=? y)%float = false.
Proof. rewrite !FloatAxioms.ltb_spec, FloatAxioms.leb_spec. apply SFleb_negative. Qed.

(** [below B x]: [x] is finite and under [2 ^ B] in absolute value. *)
Definition below (B : Z) (x : float) : Prop := magnitude B (Prim2SF x).

Lemma below_finite (B : Z) (x : float) : below B x -> is_finite x = true.
Proof. rewrite Prim2SF_finite. apply magnitude_finite. Qed.

Lemma leb_below (x b : float) (m : positive) (e : Z) :
  Prim2SF b = S754_finite false m e ->
  (- b <=? x)%float = true -> (x <=? b)%float = true -> below (53 + e) x.
Proof.
  intros Hb. rewrite !FloatAxioms.leb_spec, opp_spec, Hb. simpl SFopp.
  apply SFleb_magnitude, Prim2SF_valid.
Qed.

Lemma mul_below (B1 B2 : Z) (x y : float) :
  below B1 x -> below B2 y -> (-1000 <= B1 + B2 <= 971)%Z ->
  below (B1 + B2 + 1) (x * y)%float.
Proof. unfold below. rewrite mul_spec. apply SFmul_magnitude. Qed.

Lemma div_below (B L : Z) (x y : float) (sy : bool) (my : positive) (ey : Z) :
  Prim2SF y = S754_finite sy my ey ->
  below B x -> (L <= Z.pos (digits2_pos my) + ey)%Z ->
  (-1000 <= B - L + 53 <= 971)%Z ->
  below (B - L + 54) (x / y)%float.
Proof.
  intros Hy Hx HL HB. unfold below in *. rewrite div_spec, Hy.
  apply SFdiv_magnitude; auto.
  pose proof (Prim2SF_valid y) as Hv. rewrite Hy in Hv.
  apply bounded_inv in Hv. lia.
Qed.

Lemma add_mul_zero (f : float) :
  is_finite f = true -> (0 + f * 0 * 0)%float = 0%float.
Proof.
  rewrite Prim2SF_finite. intros Hf. apply Prim2SF_inj.
  rewrite add_spec, !mul_spec. change (Prim2SF 0) with (S754_zero false).
  now apply SFadd_mul_zero.
Qed.

Lemma ltb_asym (x y : float) : (x <? y)%float = true -> (y <? x)%float = false.
Proof. rewrite !FloatAxioms.ltb_spec. apply SFltb_asym. Qed.

Lemma ltb_number (x y : float) :
  (x <? y)%float = true -> is_nan x = false /\ is_nan y = false.
Proof. rewrite FloatAxioms.ltb_spec, !Prim2SF_number. apply SFltb_number. Qed.

(** The square root of [s * s + t] is not [-0]. *)
Lemma sqrt_square_plus (s t : float) : PrimFloat.sqrt (s * s + t)%float <> neg_zero.
Proof.
  intros Heq. apply (f_equal Prim2SF) in Heq. rewrite sqrt_spec in Heq.
  change (Prim2SF neg_zero) with (S754_zero true) in Heq.
  apply SFsqrt_neg_zero in Heq. rewrite add_spec, mul_spec in Heq.
  revert Heq. apply SFadd_neg_zero; try apply Prim2SF_valid.
  - rewrite <- mul_spec. apply Prim2SF_valid.
  - apply SFmul_self_signed.
Qed.

Lemma sub_swap (x y : float) :
  (y - x)%float = (- (x - y))%float \/ ((x - y)%float = 0%float /\ (y - x)%float = 0%float).
Proof.
  destruct (SFsub_swap (Prim2SF x) (Prim2SF y)) as [Ho|[Hx Hy]]; [left|right; split];
    apply Prim2SF_inj; rewrite ?opp_spec, !sub_spec; assumption.
Qed.

Lemma mul_opp_l (x y : float) : (- x * y)%float = (- (x * y))%float.
Proof. apply Prim2SF_inj. rewrite opp_spec, !mul_spec, opp_spec. apply SFmul_opp_l. Qed.

Lemma div_opp_l (x y : float) : (- x / y)%float = (- (x / y))%float.
Proof. apply Prim2SF_inj. rewrite opp_spec, !div_spec, opp_spec. apply SFdiv_opp_l. Qed.

Lemma mul_opp_opp (x : float) : (- x * - x)%float = (x * x)%float.
Proof. apply Prim2SF_inj. rewrite !mul_spec, opp_spec. apply SFmul_opp_opp. Qed.

Lemma mul_comm (x y : float) : (x * y)%float = (y * x)%float.
Proof. apply Prim2SF_inj. rewrite !mul_spec. apply SFmul_comm. Qed.

Lemma opp_involutive (x : float) : (- - x)%float = x.
Proof.
  apply Prim2SF_inj. rewrite !opp_spec. now destruct (Prim2SF x) as [[]|[]| |[] ? ?].
Qed.

Lemma mul_opp_r (x y : float) : (x * - y)%float = (- (x * y))%float.
Proof. now rewrite (mul_comm x (- y)), mul_opp_l, (mul_comm y x). Qed.

Lemma is_zero_opp (x : float) : is_zero (- x) = is_zero x.
Proof. unfold is_zero. rewrite !FloatAxioms.eqb_spec, opp_spec. apply SFeqb_opp_zero. Qed.

Lemma ltb_opp_zero (x : float) : (- x <? 0)%float = (0 <? x)%float.
Proof. rewrite !FloatAxioms.ltb_spec, opp_spec. apply SFltb_opp_zero. Qed.

Lemma not_a_number (x : float) :
  is_zero x = false -> (x <? 0)%float = false -> (0 <? x)%float = false -> x = nan.
Proof.
  unfold is_zero. rewrite FloatAxioms.eqb_spec, !FloatAxioms.ltb_spec. intros Hz Hl Hg.
  apply Prim2SF_inj. exact (SFcompare_zero _ Hz Hl Hg).
Qed.

End B64.

(** ** The sample library is a [Math] library *)

Module SampleFacts.
Import Sample.

Lemma clamp_range (lo hi x : float) :
  (lo <=? hi)%float = true ->
  (lo <=? clamp lo hi x)%float = true /\ (clamp lo hi x <=? hi)%float = true.
Proof.
  intros Hlh. destruct (B64.leb_number lo hi Hlh) as [Hlo Hhi]. unfold clamp.
  destruct (x <? lo)%float eqn:H1; [auto using B64.leb_refl|].
  destruct (hi <? x)%float eqn:H2; [auto using B64.leb_refl|].
  destruct (is_nan x) eqn:H3; [auto using B64.leb_refl|].
  auto using B64.leb_total.
Qed.

Lemma positive_part_signed (x : float) : (positive_part x <? 0)%float = false.
Proof. unfold positive_part. now destruct (x <? 0)%float eqn:Hx. Qed.

Lemma first_quadrant_signed (y x : float) : (first_quadrant y x <? 0)%float = false.
Proof.
  unfold first_quadrant.
  destruct (is_zero y); [reflexivity|].
  destruct (is_zero x); [reflexivity|].
  destruct (y <=? x)%float; apply positive_part_signed.
Qed.

Lemma is_neg_zero_spec (x : float) : is_neg_zero x = true -> x = neg_zero.
Proof. apply Leibniz.eqb_spec. Qed.

Lemma atan2_quadrant (y x : float) :
  (y <? 0)%float = false -> (x <? 0)%float = false -> y <> neg_zero ->
  (atan2 y x <? 0)%float = false.
Proof.
  intros Hy Hx Hny. unfold atan2.
  destruct (is_nan y || is_nan x); [reflexivity|].
  rewrite Hy, Hx. simpl.
  destruct (is_neg_zero y) eqn:Hzy; [now apply is_neg_zero_spec in Hzy|].
  destruct (is_neg_zero x) eqn:Hzx; [|apply first_quadrant_signed].
  apply is_neg_zero_spec in Hzx. subst x. unfold first_quadrant.
  destruct (is_zero y); reflexivity.
Qed.

Lemma atan2_zero (x : float) : (0 <? x)%float = true -> atan2 0 x = 0%float.
Proof.
  intros Hx. unfold atan2.
  destruct (B64.ltb_number _ _ Hx) as [_ Hn]. rewrite Hn. simpl.
  rewrite (B64.ltb_asym _ _ Hx). simpl.
  destruct (is_neg_zero x) eqn:Hzx; [|reflexivity].
  apply is_neg_zero_spec in Hzx. subst x. discriminate Hx.
Qed.

Lemma cos_range (x : float) :
  is_finite x = true ->
  (-1 <=? cos x)%float = true /\ (cos x <=? 1)%float = true.
Proof.
  intros Hx. unfold cos. rewrite Hx. now apply clamp_range.
Qed.

Lemma sin_odd (x : float) : sin (- x) = (- sin x)%float.
Proof.
  unfold sin. rewrite B64.is_zero_opp, B64.ltb_opp_zero.
  destruct (is_zero x) eqn:Hz; [reflexivity|].
  destruct (x <? 0)%float eqn:Hl.
  - rewrite (B64.ltb_asym _ _ Hl). now rewrite B64.opp_involutive.
  - destruct (0 <? x)%float eqn:Hg.
    + now rewrite B64.opp_involutive.
    + rewrite (B64.not_a_number x Hz Hl Hg). reflexivity.
Qed.

End SampleFacts.

Definition sample_math : MathLib := {|
  lib_sin := Sample.sin;
  lib_cos := Sample.cos;
  lib_atan2 := Sample.atan2;
  lib_sin_zero := eq_refl;
  lib_cos_range := SampleFacts.cos_range;
  lib_atan2_zero := SampleFacts.atan2_zero;
  lib_atan2_quadrant := SampleFacts.atan2_quadrant
|}.

(** * Arrays and the page state *)

(** ** Sorting *)

Section ArrayFacts.
Context {num : Type} `{NumberOps num} {A : Type}.
Variable comparefn : A -> A -> num.
Local Open Scope js_scope.

Lemma sort_insert_perm (x : A) (l : list A) :
  Permutation (sort_insert comparefn x l) (x :: l).
Proof.
  induction l as [|y l IH]; simpl; [reflexivity|].
  destruct (moves_behind comparefn x y); [|reflexivity].
  rewrite IH. apply perm_swap.
Qed.

Lemma Array_sort_perm (l : list A) : Permutation (Array_sort comparefn l) l.
Proof.
  induction l as [|x l IH]; simpl; [reflexivity|].
  rewrite sort_insert_perm. now apply perm_skip.
Qed.

Lemma Array_sort_In (l : list A) (x : A) : In x (Array_sort comparefn l) <-> In x l.
Proof.
  split; apply Permutation_in; [|symmetry]; apply Array_sort_perm.
Qed.

Lemma Array_sort_length (l : list A) : length (Array_sort comparefn l) = length l.
Proof. apply Permutation_length, Array_sort_perm. Qed.

(** With a comparator that agrees with an order [le] on the elements of
    the array, the sorted array is ordered by [le]. *)
Section Sorted.
Variable le : A -> A -> Prop.

Lemma sort_insert_sorted (x : A) (l : list A) :
  (forall y, In y l -> moves_behind comparefn x y = true -> le y x) ->
  (forall y, In y l -> moves_behind comparefn x y = false -> le x y) ->
  Sorted le l -> Sorted le (sort_insert comparefn x l).
Proof.
  induction l as [|y l IH]; intros Hgt Hle Hs; simpl.
  - repeat constructor.
  - inversion Hs as [|? ? Hs' Hhd]; subst.
    destruct (moves_behind comparefn x y) eqn:Hxy.
    + constructor.
      * apply IH; auto; intros z Hz; [apply Hgt|apply Hle]; now right.
      * destruct l as [|z l]; simpl.
        -- constructor. apply Hgt; [now left|assumption].
        -- inversion Hhd; subst.
           destruct (moves_behind comparefn x z); constructor; auto.
           apply Hgt; [now left|assumption].
    + repeat constructor; auto. apply Hle; [now left|assumption].
Qed.

Lemma Array_sort_sorted (l : list A) :
  (forall x y, In x l -> In y l -> moves_behind comparefn x y = true -> le y x) ->
  (forall x y, In x l -> In y l -> moves_behind comparefn x y = false -> le x y) ->
  Sorted le (Array_sort comparefn l).
Proof.
  intros Hgt Hle. induction l as [|x l IH]; simpl; [constructor|].
  apply sort_insert_sorted.
  - intros y Hy. apply (proj1 (Array_sort_In _ _)) in Hy. apply Hgt; simpl; auto.
  - intros y Hy. apply (proj1 (Array_sort_In _ _)) in Hy. apply Hle; simpl; auto.
  - apply IH; intros; [apply Hgt|apply Hle]; simpl; auto.
Qed.

End Sorted.

(** Stability: elements that the comparator never moves behind one another
    keep their order. *)
Lemma sort_insert_stable (p : A -> bool) (x : A) (l : list A) :
  (forall y, In y l -> p x = true -> p y = true -> moves_behind comparefn x y = false) ->
  List.filter p (sort_insert comparefn x l) = List.filter p (x :: l).
Proof.
  induction l as [|y l IH]; intros Hp; [reflexivity|]. simpl sort_insert.
  destruct (moves_behind comparefn x y) eqn:Hxy; [|reflexivity].
  simpl. rewrite IH by (intros z Hz; apply Hp; now right). simpl.
  destruct (p x) eqn:Hpx, (p y) eqn:Hpy; try reflexivity.
  rewrite Hp in Hxy; [discriminate|now left|reflexivity|assumption].
Qed.

Lemma Array_sort_stable (p : A -> bool) (l : list A) :
  (forall x y, In x l -> In y l -> p x = true -> p y = true -> moves_behind comparefn x y = false) ->
  List.filter p (Array_sort comparefn l) = List.filter p l.
Proof.
  induction l as [|x l IH]; intros Hp; [reflexivity|]. simpl Array_sort.
  rewrite sort_insert_stable.
  - simpl. rewrite IH; [reflexivity|]. intros; apply Hp; simpl; auto.
  - intros y Hy. apply (proj1 (Array_sort_In _ _)) in Hy. apply Hp; simpl; auto.
Qed.

End ArrayFacts.

(** ** The state after [findNearbyCircles] *)

Section StateFacts.
Context {num : Type} `{NumberOps num}.
Local Open Scope js_scope.

Lemma findNearbyCircles_run (lat lon : num) (s : State num) :
  findNearbyCircles lat lon s =
  (fresh (dom (arrays s)),
   {| arrays := <[fresh (dom (arrays s)) :=
                   nearby_list lat lon (contents s (allCircles s))]> (arrays s);
      allCircles := allCircles s;
      currentCircleId := currentCircleId s;
      currentArticleLocation := currentArticleLocation s |}).
Proof.
  unfold findNearbyCircles, filter_method, sort_method, bind, read_allCircles,
    read_array, new_array, write_array, ret, contents; simpl.
  rewrite lookup_insert_eq, insert_insert_eq. reflexivity.
Qed.

Lemma returned_findNearbyCircles (lat lon : num) (s : State num) :
  returned (findNearbyCircles lat lon) s =
  nearby_list lat lon (contents s (allCircles s)).
Proof.
  unfold returned. rewrite findNearbyCircles_run. unfold contents; simpl.
  now rewrite lookup_insert_eq.
Qed.

Lemma fresh_array (s : State num) : arrays s !! fresh (dom (arrays s)) = None.
Proof. apply not_elem_of_dom, is_fresh. Qed.

End StateFacts.

(** * The claims *)

Section Claims.
Context {num : Type} `{NumberOps num}.
Local Open Scope js_scope.

(** C1.  A circle is in the sequence returned by [findNearbyCircles] if and
    only if it is an element of [allCircles] and its distance from the
    query point is at most 1000, the threshold written in the code, or at
    most its own radius; either condition is enough. *)
Theorem findNearbyCircles_selects (s : State num) (lat lon : num) (c : Circle num) :
  let distance := calculateDistance lat lon (fst (center c)) (snd (center c)) in
  In c (returned (findNearbyCircles lat lon) s) <->
  In c (contents s (allCircles s)) /\
  ((distance <= #1000) = true \/ (distance <= radius c) = true).
Proof.
  intros distance. rewrite returned_findNearbyCircles. unfold nearby_list.
  rewrite Array_sort_In. unfold Array_filter. rewrite filter_In.
  unfold within_1000_or_radius. fold distance. now rewrite orb_true_iff.
Qed.

(** C9.  [findNearbyCircles] answers the address of an array that did not
    exist before the call, and every array that existed, [allCircles]
    among them, holds after the call the elements it held before, in the
    same order and with the same fields; the module-level variables keep
    their values. *)
Theorem findNearbyCircles_frame (s : State num) (lat lon : num) :
  arrays s !! fst (findNearbyCircles lat lon s) = None /\
  arrays s ⊆ arrays (snd (findNearbyCircles lat lon s)) /\
  allCircles (snd (findNearbyCircles lat lon s)) = allCircles s /\
  currentCircleId (snd (findNearbyCircles lat lon s)) = currentCircleId s /\
  currentArticleLocation (snd (findNearbyCircles lat lon s)) = currentArticleLocation s /\
  contents (snd (findNearbyCircles lat lon s)) (allCircles s) = contents s (allCircles s).
Proof.
  rewrite findNearbyCircles_run; simpl.
  pose proof (fresh_array s) as Hfresh.
  repeat split; auto.
  - now apply insert_subseteq.
  - unfold contents; simpl.
    destruct (decide (fresh (dom (arrays s)) = allCircles s)) as [Heq|Hne].
    + rewrite <- Heq, lookup_insert_eq, Hfresh. reflexivity.
    + now rewrite lookup_insert_ne.
Qed.

(** C10.  The list [nearbyCircles] of [ArticleDetail] holds a circle if and
    only if it is one of the circles given and the distance between its
    centre and the article is at most its own radius (no 1000 metre clause);
    the circles kept stand in the order of the input. *)
Theorem nearbyCircles_contains (article : Article num) (circles : list (Circle num)) :
  (forall c, In c (nearbyCircles article circles) <->
     In c circles /\
     (getDistanceFromLatLonInM (fst (center c)) (snd (center c))
        (lat article) (lon article) <= radius c) = true) /\
  sublist (nearbyCircles article circles) circles.
Proof.
  split.
  - intros c. unfold nearbyCircles, Array_filter. now rewrite filter_In.
  - unfold nearbyCircles, Array_filter.
    induction circles as [|c l IH]; simpl; [constructor|].
    destruct (isWithinCircle article c); now constructor.
Qed.

End Claims.

(** ** On binary64 numbers *)

Section FloatClaims.
Context (M : MathLib).
Local Open Scope float_scope.

Let distance := @calculateDistance float (float_ops M).
Let distance' := @getDistanceFromLatLonInM float (float_ops M).

(** The distance is never negative: it is [R * (2 * atan2 (sqrt a) (sqrt b))]
    with [a] a square plus a product. *)
Lemma tail_signed (s t b : float) :
  (float_of_Z 6371000 *
     (float_of_Z 2 * lib_atan2 (PrimFloat.sqrt (s * s + t)) (PrimFloat.sqrt b)) <? 0) = false.
Proof.
  apply B64.mul_signed; [reflexivity|].
  apply B64.mul_signed; [reflexivity|].
  apply lib_atan2_quadrant; auto using B64.sqrt_signed, B64.sqrt_square_plus.
Qed.

Lemma calculateDistance_signed (lat1 lon1 lat2 lon2 : float) :
  (distance lat1 lon1 lat2 lon2 <? 0) = false.
Proof. apply tail_signed. Qed.

Lemma getDistanceFromLatLonInM_signed (lat1 lon1 lat2 lon2 : float) :
  (distance' lat1 lon1 lat2 lon2 <? 0) = false.
Proof. apply tail_signed. Qed.

(** The comparator of [findNearbyCircles] moves [a] behind [b] exactly when
    [b] is strictly nearer. *)
Lemma moves_behind_by_distance (lat lon : float) (a b : Circle float) :
  moves_behind (H := float_ops M) (by_distance lat lon) a b =
  (distance lat lon (fst (center b)) (snd (center b)) <?
   distance lat lon (fst (center a)) (snd (center a))).
Proof. apply B64.ltb_sub. Qed.

Lemma within_number (lat lon : float) (c : Circle float) :
  within_1000_or_radius (H := float_ops M) lat lon c = true ->
  is_nan (distance lat lon (fst (center c)) (snd (center c))) = false.
Proof.
  unfold within_1000_or_radius. rewrite orb_true_iff.
  intros [Hle|Hle]; now apply B64.leb_number in Hle.
Qed.

(** C3.  The sequence returned by [findNearbyCircles] is in ascending order
    of distance from the query point (each element is at most as far as the
    next one), and the circles at one same distance stand in the order
    they have in [allCircles]. *)
Theorem findNearbyCircles_ordered (s : State float) (lat lon : float) :
  let out := returned (findNearbyCircles (H := float_ops M) lat lon) s in
  let far c := distance lat lon (fst (center c)) (snd (center c)) in
  Sorted (fun a b => (far a <=? far b) = true) out /\
  forall d, List.filter (fun c => far c =? d) out =
            List.filter (fun c => far c =? d)
              (Array_filter (within_1000_or_radius (H := float_ops M) lat lon)
                 (contents s (allCircles s))).
Proof.
  intros out far. subst out. rewrite returned_findNearbyCircles. unfold nearby_list.
  set (kept := Array_filter _ _).
  assert (Hnum : forall c, In c kept -> is_nan (far c) = false).
  { intros c Hc. unfold kept, Array_filter in Hc. apply filter_In in Hc.
    destruct Hc as [_ Hc]. exact (within_number _ _ _ Hc). }
  split.
  - apply Array_sort_sorted; intros x y Hx Hy; rewrite moves_behind_by_distance.
    + apply B64.ltb_leb.
    + apply B64.leb_total; auto.
  - intros d. apply Array_sort_stable. intros x y _ _ Hx Hy.
    rewrite moves_behind_by_distance. exact (B64.eqb_not_ltb _ _ _ Hx Hy).
Qed.

(** C4.  The containment test [isWithinCircle] is true exactly when the
    distance between the centre and the point is [<=] the radius; a
    distance equal to the radius passes. *)
Theorem isWithinCircle_iff (article : Article float) (circle : Circle float) :
  let d := distance' (fst (center circle)) (snd (center circle))
             (lat article) (lon article) in
  (isWithinCircle (H := float_ops M) article circle = true <->
     (d <=? radius circle) = true) /\
  (isWithinCircle (H := float_ops M) article circle = true <->
     (d <? radius circle) = true \/ (d =? radius circle) = true).
Proof.
  intros d. unfold isWithinCircle. fold distance'. fold d.
  change (num_le d (radius circle)) with (d <=? radius circle).
  rewrite B64.leb_ltb_eqb, orb_true_iff. tauto.
Qed.

(** C5, as the code has it.  A circle whose radius is negative contains no
    point: the distance is never below zero. *)
Theorem negative_radius_contains_nothing (article : Article float) (circle : Circle float) :
  (radius circle <? 0) = true ->
  isWithinCircle (H := float_ops M) article circle = false.
Proof.
  intros Hr. unfold isWithinCircle.
  apply B64.leb_negative; [apply getDistanceFromLatLonInM_signed|assumption].
Qed.

(** *** The distance from a point to itself *)

(** A latitude between -90 and 90, or a longitude between -180 and 180, is
    finite, and so are the angles in radians computed from them. *)
Lemma below_90 (x : float) :
  (-90 <=? x) = true -> (x <=? 90) = true -> B64.below 7 x.
Proof. apply (B64.leb_below x 90 6333186975989760 (-46)). reflexivity. Qed.

Lemma below_180 (x : float) :
  (-180 <=? x) = true -> (x <=? 180) = true -> B64.below 8 x.
Proof. apply (B64.leb_below x 180 6333186975989760 (-45)). reflexivity. Qed.

Lemma below_1 (x : float) :
  (-1 <=? x) = true -> (x <=? 1) = true -> B64.below 1 x.
Proof. apply (B64.leb_below x 1 4503599627370496 (-52)). reflexivity. Qed.

Lemma below_PI : B64.below 2 float_PI.
Proof. unfold B64.below. vm_compute. discriminate. Qed.

Lemma below_PI_180 : B64.below (-5) (float_PI / float_of_Z 180).
Proof. unfold B64.below. vm_compute. discriminate. Qed.

Lemma radians_finite (x : float) :
  B64.below 8 x -> is_finite (x * float_PI / float_of_Z 180) = true.
Proof.
  intros Hx. apply (B64.below_finite (11 - 8 + 54)).
  apply (B64.div_below 11 8 _ _ false 6333186975989760 (-45)); try reflexivity; try lia.
  apply (B64.mul_below 8 2); auto using below_PI. lia.
Qed.

Lemma deg2rad_finite (x : float) :
  B64.below 8 x -> is_finite (x * (float_PI / float_of_Z 180)) = true.
Proof.
  intros Hx. apply (B64.below_finite (8 + -5 + 1)).
  apply (B64.mul_below 8 (-5)); auto using below_PI_180. lia.
Qed.

Lemma cos_cos_finite (x y : float) :
  is_finite x = true -> is_finite y = true ->
  is_finite (lib_cos x * lib_cos y) = true.
Proof.
  intros Hx Hy. apply (B64.below_finite (1 + 1 + 1)).
  destruct (lib_cos_range x Hx). destruct (lib_cos_range y Hy).
  apply (B64.mul_below 1 1); auto using below_1. lia.
Qed.

(** The haversine of two equal points, once the differences are known to be
    zero. *)
Lemma zero_tail (f : float) :
  is_finite f = true ->
  float_of_Z 6371000 *
    (float_of_Z 2 *
       lib_atan2 (PrimFloat.sqrt (lib_sin 0 * lib_sin 0 + f * lib_sin 0 * lib_sin 0))
         (PrimFloat.sqrt
            (float_of_Z 1 - (lib_sin 0 * lib_sin 0 + f * lib_sin 0 * lib_sin 0)))) = 0.
Proof.
  intros Hf. rewrite lib_sin_zero. change (0 * 0) with 0.
  rewrite (B64.add_mul_zero f Hf).
  change (PrimFloat.sqrt 0) with 0. change (PrimFloat.sqrt (float_of_Z 1 - 0)) with 1.
  rewrite lib_atan2_zero by reflexivity. reflexivity.
Qed.

Lemma calculateDistance_itself (latitude longitude : float) :
  (-90 <=? latitude) = true -> (latitude <=? 90) = true ->
  (-180 <=? longitude) = true -> (longitude <=? 180) = true ->
  distance latitude longitude latitude longitude = 0.
Proof.
  intros Hlat1 Hlat2 Hlon1 Hlon2.
  pose proof (below_90 _ Hlat1 Hlat2) as Hlat.
  pose proof (below_180 _ Hlon1 Hlon2) as Hlon.
  assert (Hlat8 : B64.below 8 latitude) by (revert Hlat; apply SF.magnitude_mono; lia).
  unfold distance, calculateDistance.
  cbn [num_lit num_add num_sub num_mul num_div Math_PI Math_sin Math_cos Math_sqrt
       Math_atan2 float_ops].
  rewrite (B64.sub_diag latitude) by exact (B64.below_finite _ _ Hlat).
  rewrite (B64.sub_diag longitude) by exact (B64.below_finite _ _ Hlon).
  change (0 * float_PI / float_of_Z 180 / float_of_Z 2) with 0.
  apply zero_tail, cos_cos_finite; auto using radians_finite.
Qed.

Lemma getDistanceFromLatLonInM_itself (latitude longitude : float) :
  (-90 <=? latitude) = true -> (latitude <=? 90) = true ->
  (-180 <=? longitude) = true -> (longitude <=? 180) = true ->
  distance' latitude longitude latitude longitude = 0.
Proof.
  intros Hlat1 Hlat2 Hlon1 Hlon2.
  pose proof (below_90 _ Hlat1 Hlat2) as Hlat.
  pose proof (below_180 _ Hlon1 Hlon2) as Hlon.
  assert (Hlat8 : B64.below 8 latitude) by (revert Hlat; apply SF.magnitude_mono; lia).
  unfold distance', getDistanceFromLatLonInM, deg2rad.
  cbn [num_lit num_add num_sub num_mul num_div Math_PI Math_sin Math_cos Math_sqrt
       Math_atan2 float_ops].
  rewrite (B64.sub_diag latitude) by exact (B64.below_finite _ _ Hlat).
  rewrite (B64.sub_diag longitude) by exact (B64.below_finite _ _ Hlon).
  change (0 * (float_PI / float_of_Z 180) / float_of_Z 2) with 0.
  apply zero_tail, cos_cos_finite; auto using deg2rad_finite.
Qed.

(** C7.  The distance from a point to itself is exactly [+0], for a
    latitude between -90 and 90 and a longitude between -180 and 180, in both
    implementations. *)
Theorem distance_to_itself (latitude longitude : float) :
  (-90 <=? latitude) = true -> (latitude <=? 90) = true ->
  (-180 <=? longitude) = true -> (longitude <=? 180) = true ->
  distance latitude longitude latitude longitude = 0 /\
  distance' latitude longitude latitude longitude = 0.
Proof.
  auto using calculateDistance_itself, getDistanceFromLatLonInM_itself.
Qed.

(** A circle of radius zero contains its centre: the test is [<=]. *)
Lemma zero_radius_contains_centre (article : Article float) (circle : Circle float) :
  (-90 <=? lat article) = true -> (lat article <=? 90) = true ->
  (-180 <=? lon article) = true -> (lon article <=? 180) = true ->
  center circle = (lat article, lon article) -> radius circle = 0 ->
  isWithinCircle (H := float_ops M) article circle = true.
Proof.
  intros H1 H2 H3 H4 Hc Hr. unfold isWithinCircle. rewrite Hc, Hr. cbn [fst snd].
  fold distance'. rewrite getDistanceFromLatLonInM_itself by assumption. reflexivity.
Qed.

(** *** Symmetry on binary64 numbers *)

(** Every arithmetic step of the haversine code commutes with the exchange
    of the two points; the sine is the one operation ECMAScript leaves
    open.  With a sine that is odd, as the usual implementations are, the
    two distances are the same binary64 number. *)
Section OddSine.
Hypothesis lib_sin_odd : forall x, lib_sin (- x) = - lib_sin x.

Variable half_angle : float -> float.
Hypothesis half_angle_odd : forall d, half_angle (- d) = - half_angle d.

Lemma square_swap (x y : float) :
  lib_sin (half_angle (y - x)) * lib_sin (half_angle (y - x)) =
  lib_sin (half_angle (x - y)) * lib_sin (half_angle (x - y)).
Proof using lib_sin_odd half_angle_odd.
  destruct (B64.sub_swap x y) as [Ho|[Hx Hy]].
  - rewrite Ho, half_angle_odd, lib_sin_odd. apply B64.mul_opp_opp.
  - rewrite Hx, Hy. reflexivity.
Qed.

Lemma product_swap (c x y : float) :
  c * lib_sin (half_angle (y - x)) * lib_sin (half_angle (y - x)) =
  c * lib_sin (half_angle (x - y)) * lib_sin (half_angle (x - y)).
Proof using lib_sin_odd half_angle_odd.
  destruct (B64.sub_swap x y) as [Ho|[Hx Hy]].
  - rewrite Ho, half_angle_odd, lib_sin_odd.
    rewrite !B64.mul_opp_r, B64.mul_opp_l. apply B64.opp_involutive.
  - rewrite Hx, Hy. reflexivity.
Qed.

End OddSine.

Lemma distance_symmetric_binary64 (lat1 lon1 lat2 lon2 : float) :
  (forall x, lib_sin (- x) = - lib_sin x) ->
  distance lat1 lon1 lat2 lon2 = distance lat2 lon2 lat1 lon1 /\
  distance' lat1 lon1 lat2 lon2 = distance' lat2 lon2 lat1 lon1.
Proof.
  intros Hodd.
  unfold distance, distance', calculateDistance, getDistanceFromLatLonInM, deg2rad.
  cbn [num_lit num_add num_sub num_mul num_div Math_PI Math_sin Math_cos Math_sqrt
       Math_atan2 float_ops].
  split.
  - pose (h := fun d => d * float_PI / float_of_Z 180 / float_of_Z 2).
    assert (Hh : forall d, h (- d) = - h d)
      by (intros d; unfold h; now rewrite B64.mul_opp_l, !B64.div_opp_l).
    pose proof (square_swap Hodd h Hh lat1 lat2) as E1.
    pose proof (fun c => product_swap Hodd h Hh c lon1 lon2) as E2.
    cbv beta delta [h] in E1, E2. rewrite E1, E2.
    rewrite (B64.mul_comm (lib_cos (lat1 * float_PI / float_of_Z 180))). reflexivity.
  - pose (h := fun d => d * (float_PI / float_of_Z 180) / float_of_Z 2).
    assert (Hh : forall d, h (- d) = - h d)
      by (intros d; unfold h; now rewrite B64.mul_opp_l, B64.div_opp_l).
    pose proof (square_swap Hodd h Hh lat1 lat2) as E1.
    pose proof (fun c => product_swap Hodd h Hh c lon1 lon2) as E2.
    cbv beta delta [h] in E1, E2. rewrite E1, E2.
    rewrite (B64.mul_comm (lib_cos (lat1 * (float_PI / float_of_Z 180)))). reflexivity.
Qed.

End FloatClaims.

(** ** In exact arithmetic *)

Section ExactClaims.
Local Open Scope R_scope.

Let distance := @calculateDistance R real_ops.
Let distance' := @getDistanceFromLatLonInM R real_ops.

Lemma deg2rad_radians (x : R) : deg2rad (H := real_ops) x = radians x.
Proof. unfold deg2rad, radians; simpl. field. Qed.

Lemma calculateDistance_haversine (lat1 lon1 lat2 lon2 : R) :
  distance lat1 lon1 lat2 lon2 = haversine lat1 lon1 lat2 lon2.
Proof.
  unfold distance, calculateDistance, haversine, radians, earth_radius.
  cbn [num_lit num_add num_sub num_mul num_div Math_PI Math_sin Math_cos Math_sqrt
       Math_atan2 real_ops].
  cbv zeta. unfold Rsqr. do 2 f_equal; f_equal; try f_equal; ring.
Qed.

Lemma getDistanceFromLatLonInM_haversine (lat1 lon1 lat2 lon2 : R) :
  distance' lat1 lon1 lat2 lon2 = haversine lat1 lon1 lat2 lon2.
Proof.
  unfold distance', getDistanceFromLatLonInM, haversine.
  rewrite !deg2rad_radians. unfold earth_radius.
  cbn [num_lit num_add num_sub num_mul num_div Math_PI Math_sin Math_cos Math_sqrt
       Math_atan2 real_ops].
  cbv zeta. unfold Rsqr. do 2 f_equal; f_equal; try f_equal; ring.
Qed.

Lemma sin_half_swap (x y : R) :
  (sin (radians (x - y) / 2))² = (sin (radians (y - x) / 2))².
Proof.
  replace (radians (x - y) / 2) with (- (radians (y - x) / 2))
    by (unfold radians; field).
  rewrite sin_neg. symmetry. apply Rsqr_neg.
Qed.

Lemma haversine_sym (lat1 lon1 lat2 lon2 : R) :
  haversine lat1 lon1 lat2 lon2 = haversine lat2 lon2 lat1 lon1.
Proof.
  unfold haversine. cbv zeta.
  rewrite (sin_half_swap lat2 lat1), (sin_half_swap lon2 lon1).
  rewrite (Rmult_comm (cos (radians lat1)) (cos (radians lat2))). reflexivity.
Qed.


(** C8.  Up to the rounding of the binary64 operations, that is, in exact
    arithmetic, the distance is symmetric in its two points, in both
    implementations. *)
Theorem distance_symmetric (lat1 lon1 lat2 lon2 : R) :
  distance lat1 lon1 lat2 lon2 = distance lat2 lon2 lat1 lon1 /\
  distance' lat1 lon1 lat2 lon2 = distance' lat2 lon2 lat1 lon1.
Proof.
  rewrite !calculateDistance_haversine, !getDistanceFromLatLonInM_haversine.
  split; apply haversine_sym.
Qed.

End ExactClaims.

(** ** What a call depends on *)

Section Purity.
Context {num : Type} `{NumberOps num}.

(** C6, as the code has it.  [findNearbyCircles] takes the query point as
    its arguments and reads the circles from the module-level variable
    [allCircles].  Two calls with the same query point, in two states in
    which [allCircles] holds the same elements, return the same sequence,
    whatever else the states hold; and nothing is cached: a second call
    after the first one computes the same sequence again. *)
Theorem findNearbyCircles_snapshot (s1 s2 : State num) (lat lon : num) :
  contents s1 (allCircles s1) = contents s2 (allCircles s2) ->
  returned (findNearbyCircles lat lon) s1 = returned (findNearbyCircles lat lon) s2 /\
  returned (findNearbyCircles lat lon) (snd (findNearbyCircles lat lon s1)) =
  returned (findNearbyCircles lat lon) s1.
Proof.
  intros Hsame. rewrite !returned_findNearbyCircles. split.
  - now rewrite Hsame.
  - f_equal. rewrite findNearbyCircles_run. unfold contents; simpl.
    destruct (decide (fresh (dom (arrays s1)) = allCircles s1)) as [Heq|Hne].
    + rewrite <- Heq, lookup_insert_eq, fresh_array. reflexivity.
    + now rewrite lookup_insert_ne.
Qed.

End Purity.

(** * The model at work: circles in Berlin *)

Module BerlinFacts.
Import Berlin.
#[local] Set Warnings "-inexact-float".
Local Open Scope float_scope.

(** The operations on binary64 numbers, with the sample [Math] library. *)
Local Abbreviation ops := (float_ops sample_math).

(** Berlin to Paris: about 878 km. *)
Example berlin_paris :
  let d := calculateDistance (H := ops) 52.52 13.405 48.8566 2.3522 in
  (870000 <=? d) && (d <=? 886000) = true.
Proof. vm_compute. reflexivity. Qed.

(** On binary64 numbers the two implementations are not the same
    function: [x * Math.PI / 180] and [x * (Math.PI / 180)] round
    differently, whatever the [Math] library. *)
Example conversions_differ :
  (13.41 * float_PI / float_of_Z 180 =? deg2rad (H := ops) 13.41) = false.
Proof. vm_compute. reflexivity. Qed.

Example implementations_differ :
  (calculateDistance (H := ops) 52.52 13.405 48.8566 2.3522 =?
   getDistanceFromLatLonInM (H := ops) 52.52 13.405 48.8566 2.3522) = false.
Proof. vm_compute. reflexivity. Qed.

(** Outside the range of a latitude the distance from a point to itself
    need not be zero: [1e308 * Math.PI] overflows in [calculateDistance]. *)
Example out_of_range :
  is_nan (calculateDistance (H := ops) 1e308 0 1e308 0) = true /\
  getDistanceFromLatLonInM (H := ops) 1e308 0 1e308 0 = 0.
Proof. vm_compute. auto. Qed.

(** The two scenarios of the specification. *)
Example scenario_near :
  returned (findNearbyCircles (H := ops) 52.521 13.406) (page 1%positive [circle_b; circle_a] []) =
  [circle_a; circle_b].
Proof. rewrite returned_findNearbyCircles. vm_compute. reflexivity. Qed.

Example scenario_far :
  returned (findNearbyCircles (H := ops) 53.0 14.0) (page 1%positive [circle_a; circle_b] []) = [].
Proof. rewrite returned_findNearbyCircles. vm_compute. reflexivity. Qed.

(** [ArticleDetail] keeps the order of the input and has no 1000 metre
    clause: [circle_a], 130 m away with a radius of 200, is listed after
    the farther [circle_b], and [circle_small], 130 m from the article at
    the centre of [circle_a] with a radius of 50, is not listed, while
    [findNearbyCircles] returns it. *)
Example nearbyCircles_unsorted :
  nearbyCircles (H := ops) (article_at 52.521 13.406) [circle_b; circle_a] =
  [circle_b; circle_a].
Proof. vm_compute. reflexivity. Qed.

Example nearbyCircles_no_threshold :
  nearbyCircles (H := ops) (article_at 52.52 13.405) [circle_small; circle_a] = [circle_a] /\
  returned (findNearbyCircles (H := ops) 52.52 13.405) (page 1%positive [circle_small; circle_a] []) =
  [circle_a; circle_small].
Proof. rewrite returned_findNearbyCircles. vm_compute. auto. Qed.

(** Against C5 as the specification words it: a circle of radius 0
    contains the point at its centre. *)
Lemma zero_radius_contains :
  (radius circle_zero <=? 0) = true /\
  isWithinCircle (H := ops) (article_at 52.52 13.405) circle_zero = true.
Proof. vm_compute. auto. Qed.

(** A circle of radius -5 does not contain its centre. *)
Lemma negative_radius_witness :
  (radius circle_negative <? 0) = true /\
  isWithinCircle (H := ops) (article_at 52.52 13.405) circle_negative = false.
Proof.
  split; [reflexivity|].
  apply (negative_radius_contains_nothing sample_math). reflexivity.
Defined.

(** Against C6 as the specification words it: with the same arguments,
    the result follows the module-level variable [allCircles]. *)
Lemma findNearbyCircles_reads_allCircles :
  returned (findNearbyCircles (H := ops) 52.521 13.406) (page 1%positive [circle_a] []) =
  [circle_a] /\
  returned (findNearbyCircles (H := ops) 52.521 13.406) (page 2%positive [circle_a] []) = [].
Proof. rewrite !returned_findNearbyCircles. vm_compute. auto. Qed.

(** Two pages that agree on the elements of [allCircles] only. *)
Lemma snapshot_witness :
  contents (page 1%positive [circle_b; circle_a] []) 1%positive =
  contents (busy_page [circle_b; circle_a]) 7%positive /\
  returned (findNearbyCircles (H := ops) 52.521 13.406) (page 1%positive [circle_b; circle_a] []) =
  returned (findNearbyCircles (H := ops) 52.521 13.406) (busy_page [circle_b; circle_a]).
Proof.
  assert (Hsame : contents (page 1%positive [circle_b; circle_a] []) 1%positive =
                  contents (busy_page [circle_b; circle_a]) 7%positive)
    by (vm_compute; reflexivity).
  split; [exact Hsame|].
  exact (proj1 (findNearbyCircles_snapshot (H := ops)
                  (page 1%positive [circle_b; circle_a] []) (busy_page [circle_b; circle_a])
                  52.521 13.406 Hsame)).
Defined.

(** The distance from Alexanderplatz to itself. *)
Lemma distance_to_itself_witness :
  calculateDistance (H := ops) 52.52 13.405 52.52 13.405 = 0 /\
  getDistanceFromLatLonInM (H := ops) 52.52 13.405 52.52 13.405 = 0.
Proof.
  apply (distance_to_itself sample_math 52.52 13.405); reflexivity.
Defined.

(** With the odd sine of the sample library, the distance between Berlin
    and Paris is the same binary64 number in both directions. *)
Example berlin_paris_symmetric :
  calculateDistance (H := ops) 52.52 13.405 48.8566 2.3522 =
  calculateDistance (H := ops) 48.8566 2.3522 52.52 13.405.
Proof.
  exact (proj1 (distance_symmetric_binary64 sample_math 52.52 13.405 48.8566 2.3522
                  SampleFacts.sin_odd)).
Qed.

End BerlinFacts.

(** * More on the proximity code *)

Section MoreArrayFacts.
Context {num : Type} `{NumberOps num}.
Local Open Scope js_scope.

(** X1.  The sequence that [findNearbyCircles] returns is a rearrangement of
    the circles of [allCircles] that pass the test: a circle appears as many
    times as it does among them, and the result is never longer than
    [allCircles]. *)
Theorem findNearbyCircles_rearranges (s : State num) (lat lon : num) :
  Permutation (returned (findNearbyCircles lat lon) s)
    (Array_filter (within_1000_or_radius lat lon) (contents s (allCircles s))) /\
  (length (returned (findNearbyCircles lat lon) s) <= length (contents s (allCircles s)))%nat.
Proof.
  rewrite returned_findNearbyCircles. unfold nearby_list.
  pose proof (Array_sort_perm (by_distance lat lon)
    (Array_filter (within_1000_or_radius lat lon) (contents s (allCircles s)))) as Hp.
  split.
  - exact Hp.
  - rewrite (Permutation_length Hp). unfold Array_filter. apply filter_length_le.
Qed.

End MoreArrayFacts.

(** [<=] on binary64 numbers is transitive. *)
Lemma SFleb_trans (x y z : spec_float) :
  SFleb x y = true -> SFleb y z = true -> SFleb x z = true.
Proof.
  unfold SFleb, SFcompare.
  destruct x as [[]|[]| |[] mx ex], y as [[]|[]| |[] my ey], z as [[]|[]| |[] mz ez];
    try easy;
    change (PosDef.Pos.compare_cont Eq) with Pos.compare;
    destruct (Z.compare_spec ex ey), (Z.compare_spec ey ez), (Z.compare_spec ex ez);
    try lia; try easy; subst;
    destruct (Pos.compare_spec mx my), (Pos.compare_spec my mz), (Pos.compare_spec mx mz);
    simpl; try lia; easy.
Qed.

Lemma binary64_leb_trans (x y z : float) :
  (x <=? y)%float = true -> (y <=? z)%float = true -> (x <=? z)%float = true.
Proof. rewrite !FloatAxioms.leb_spec. apply SFleb_trans. Qed.

Section MoreOnBinary64.
Context (M : MathLib).
Local Open Scope float_scope.

Let distance := @calculateDistance float (float_ops M).
Let distance' := @getDistanceFromLatLonInM float (float_ops M).

Lemma signed_number (d : float) :
  (d <? 0) = false -> is_nan d = true \/ (0 <=? d) = true.
Proof.
  intros Hd. destruct (is_nan d) eqn:Hn; [now left|right].
  now apply B64.leb_total.
Qed.

(** X2.  Whatever the four coordinates, infinite ones and [NaN] included, the
    result of either distance function is [NaN] or a number that is at least
    zero: it is never negative. *)
Theorem distance_never_negative (lat1 lon1 lat2 lon2 : float) :
  (is_nan (distance lat1 lon1 lat2 lon2) = true \/
   (0 <=? distance lat1 lon1 lat2 lon2) = true) /\
  (is_nan (distance' lat1 lon1 lat2 lon2) = true \/
   (0 <=? distance' lat1 lon1 lat2 lon2) = true).
Proof.
  split; apply signed_number;
    [apply calculateDistance_signed|apply getDistanceFromLatLonInM_signed].
Qed.

(** X3.  A circle whose distance from the query point is [NaN] is not in the
    sequence that [findNearbyCircles] returns, whatever its radius, and the
    containment test of [ArticleDetail] is false when the distance or the
    radius is [NaN]. *)
Theorem not_a_number_is_not_nearby (s : State float) (latitude longitude : float)
    (article : Article float) (c : Circle float) :
  (is_nan (distance latitude longitude (fst (center c)) (snd (center c))) = true ->
   ~ In c (returned (findNearbyCircles (H := float_ops M) latitude longitude) s)) /\
  (is_nan (distance' (fst (center c)) (snd (center c)) (lat article) (lon article)) = true \/
   is_nan (radius c) = true ->
   isWithinCircle (H := float_ops M) article c = false).
Proof.
  split.
  - intros Hn Hin. rewrite returned_findNearbyCircles in Hin. unfold nearby_list in Hin.
    apply (proj1 (Array_sort_In _ _ _)) in Hin. unfold Array_filter in Hin.
    apply filter_In in Hin. destruct Hin as [_ Hw].
    apply within_number in Hw. fold distance in Hw. congruence.
  - intros Hn. unfold isWithinCircle. fold distance'.
    destruct (num_le (NumberOps := float_ops M) _ _) eqn:Hle; [|reflexivity].
    apply B64.leb_number in Hle. destruct Hle, Hn; congruence.
Qed.

(** X4.  A circle of [allCircles] whose centre is the query point is in the
    sequence that [findNearbyCircles] returns, whatever its radius: its
    distance is zero, which is within the 1000 metres. *)
Theorem findNearbyCircles_finds_centre (s : State float) (lat lon : float) (c : Circle float) :
  (-90 <=? lat) = true -> (lat <=? 90) = true ->
  (-180 <=? lon) = true -> (lon <=? 180) = true ->
  In c (contents s (allCircles s)) -> center c = (lat, lon) ->
  In c (returned (findNearbyCircles (H := float_ops M) lat lon) s).
Proof.
  intros H1 H2 H3 H4 Hin Hc.
  rewrite returned_findNearbyCircles. unfold nearby_list.
  apply Array_sort_In. unfold Array_filter. apply filter_In. split; [assumption|].
  unfold within_1000_or_radius. rewrite Hc. cbn [fst snd].
  rewrite (calculateDistance_itself M) by assumption. reflexivity.
Qed.

(** X5.  The sequence that [findNearbyCircles] returns is sorted
    throughout, not only between neighbours: every circle is at most as far
    from the query point as every circle behind it, so the first circle is
    a nearest one. *)
Theorem findNearbyCircles_nearest_first (s : State float) (latitude longitude : float) :
  let out := returned (findNearbyCircles (H := float_ops M) latitude longitude) s in
  let far c := distance latitude longitude (fst (center c)) (snd (center c)) in
  StronglySorted (fun a b => (far a <=? far b) = true) out /\
  forall first rest, out = first :: rest ->
    forall c, In c rest -> (far first <=? far c) = true.
Proof.
  intros out far.
  assert (Hs : StronglySorted (fun a b => (far a <=? far b) = true) out).
  { apply Sorted_StronglySorted.
    - intros a b c. apply binary64_leb_trans.
    - subst out. rewrite returned_findNearbyCircles. unfold nearby_list.
      set (kept := Array_filter _ _).
      assert (Hnum : forall c, In c kept -> is_nan (far c) = false).
      { intros c Hc. unfold kept, Array_filter in Hc. apply filter_In in Hc.
        destruct Hc as [_ Hc]. exact (within_number M _ _ _ Hc). }
      apply Array_sort_sorted; intros x y Hx Hy; rewrite moves_behind_by_distance.
      + apply B64.ltb_leb.
      + apply B64.leb_total; auto. }
  split; [exact Hs|].
  intros first rest Hout c Hc. rewrite Hout in Hs.
  apply StronglySorted_inv in Hs. destruct Hs as [_ Hall].
  exact (proj1 (List.Forall_forall _ _) Hall c Hc).
Qed.

(** X6.  A circle with the same centre and a radius at least as large
    contains every article, and is found for every query point, that the
    smaller circle contains or is found for. *)
Theorem larger_circle_contains_more (article : Article float) (c c' : Circle float) :
  center c' = center c -> (radius c <=? radius c') = true ->
  (isWithinCircle (H := float_ops M) article c = true ->
   isWithinCircle (H := float_ops M) article c' = true) /\
  (forall latitude longitude,
     within_1000_or_radius (H := float_ops M) latitude longitude c = true ->
     within_1000_or_radius (H := float_ops M) latitude longitude c' = true).
Proof.
  intros Hc Hr. split.
  - unfold isWithinCircle. rewrite Hc. intros Hd.
    exact (binary64_leb_trans _ _ _ Hd Hr).
  - intros latitude longitude. unfold within_1000_or_radius. rewrite Hc.
    rewrite !orb_true_iff. intros [Hd|Hd]; [now left|right].
    exact (binary64_leb_trans _ _ _ Hd Hr).
Qed.

(** X7.  For an article with a latitude between -90 and 90 and a longitude
    between -180 and 180, a circle whose centre is the location of the article
    contains the article exactly when its radius is at least zero: zero
    counts, a negative radius and [NaN] do not. *)
Theorem contains_own_centre_iff (article : Article float) (c : Circle float) :
  (-90 <=? lat article) = true -> (lat article <=? 90) = true ->
  (-180 <=? lon article) = true -> (lon article <=? 180) = true ->
  center c = (lat article, lon article) ->
  (isWithinCircle (H := float_ops M) article c = true <-> (0 <=? radius c) = true).
Proof.
  intros H1 H2 H3 H4 Hc. unfold isWithinCircle. rewrite Hc. cbn [fst snd].
  rewrite (getDistanceFromLatLonInM_itself M) by assumption. reflexivity.
Qed.

End MoreOnBinary64.

Section MoreInExactArithmetic.
Local Open Scope R_scope.

Lemma haversine_itself (latitude longitude : R) :
  haversine latitude longitude latitude longitude = 0.
Proof.
  unfold haversine, radians. cbv zeta.
  replace ((latitude - latitude) * PI / 180 / 2) with 0 by field.
  replace ((longitude - longitude) * PI / 180 / 2) with 0 by field.
  rewrite sin_0. unfold Rsqr.
  replace (0 * 0 + cos (latitude * PI / 180) * cos (latitude * PI / 180) * (0 * 0))
    with 0 by ring.
  rewrite Rminus_0_r, sqrt_0, sqrt_1. unfold Ratan2.
  destruct (Rlt_dec 0 1) as [_|Hn]; [|exfalso; apply Hn; lra].
  replace (0 / 1) with 0 by field. rewrite atan_0. ring.
Qed.

(** X8.  In exact arithmetic the distance from a point to itself is zero
    for all coordinates, in both implementations: the range of latitudes
    and longitudes matters on binary64 numbers only. *)
Theorem distance_to_itself_exact (latitude longitude : R) :
  calculateDistance (H := real_ops) latitude longitude latitude longitude = 0 /\
  getDistanceFromLatLonInM (H := real_ops) latitude longitude latitude longitude = 0.
Proof.
  rewrite calculateDistance_haversine, getDistanceFromLatLonInM_haversine.
  split; apply haversine_itself.
Qed.

End MoreInExactArithmetic.

(** * Facts on the components *)

Lemma truthy_string_spec (s : string) : truthy_string s = true <-> s <> "".
Proof.
  unfold truthy_string. destruct (String.eqb_spec s ""); simpl; intuition congruence.
Qed.

Lemma or_string_truthy (a : option string) (b : string) : b <> "" -> or_string a b <> "".
Proof.
  intros Hb. unfold or_string. destruct a as [s|]; [|assumption].
  destruct (truthy_string s) eqn:Hs; [|assumption]. now apply truthy_string_spec.
Qed.

Lemma Array_includes_spec (l : list Z) (x : Z) : Array_includes l x = true <-> In x l.
Proof.
  unfold Array_includes. rewrite existsb_exists. split.
  - intros [y [Hy Heq]]. apply Z.eqb_eq in Heq. now subst.
  - intros Hx. exists x. split; [assumption|apply Z.eqb_refl].
Qed.

Lemma Array_filter_sublist {A : Type} (p : A -> bool) (l : list A) :
  sublist (Array_filter p l) l.
Proof.
  unfold Array_filter. induction l as [|x l IH]; simpl; [constructor|].
  destruct (p x); now constructor.
Qed.

Section CircleManagerFacts.
Import CircleManager.

(** X10.  [handleSubmit] either refuses the form with the alert, or passes a
    circle on: to [onUpdateCircle] when a circle is selected and to
    [onCreateCircle] when none is.  The circle passed on has an [id] and a
    [name] that are not empty, a [radius] that is neither zero nor [NaN], a
    [color] that is not empty and a list of articles. *)
Theorem handleSubmit_validates (formValues : Partial.t) (selectedCircle : option (Circle float)) :
  let passes (circle : Circle float) :=
    id circle <> "" /\ name circle <> "" /\
    is_zero (radius circle) = false /\ is_nan (radius circle) = false /\
    color circle <> "" /\ articles circle <> None in
  match handleSubmit formValues selectedCircle with
  | alert message => message = "Please fill all required fields"
  | onUpdateCircle circle => selectedCircle <> None /\ passes circle
  | onCreateCircle circle => selectedCircle = None /\ passes circle
  | _ => False
  end.
Proof.
  intros passes. unfold handleSubmit.
  destruct (Partial.id formValues) as [i|]; [|reflexivity].
  destruct (Partial.name formValues) as [n|]; [|reflexivity].
  destruct (Partial.center formValues) as [c|]; [|reflexivity].
  destruct (Partial.radius formValues) as [r|]; [|reflexivity].
  destruct (truthy_string i) eqn:Hi; [|reflexivity].
  destruct (truthy_string n) eqn:Hn; [|reflexivity].
  destruct (truthy_number r) eqn:Hr; [|reflexivity]. simpl.
  assert (Hp : passes {| id := i; name := n; center := c; radius := r;
                         color := or_string (Partial.color formValues) "#1976d2";
                         articles := Some (default [] (Partial.articles formValues)) |}).
  { unfold passes; simpl. unfold truthy_number in Hr.
    apply negb_true_iff, orb_false_iff in Hr. destruct Hr as [Hz Hnan].
    repeat split; try assumption; try (now apply truthy_string_spec);
      try (now apply or_string_truthy); discriminate. }
  destruct selectedCircle; split; auto; discriminate.
Qed.

(** X11.  [handleInputChange] never puts [NaN] into the centre of the form:
    text in the [center] input of which the two first comma-separated pieces
    do not both parse as numbers leaves the centre as it was. *)
Theorem handleInputChange_keeps_center (parseFloat : string -> float) (trim : string -> string)
    (formValues : Partial.t) (name : Input) (value : string) :
  center_is_number formValues ->
  center_is_number (handleInputChange parseFloat trim formValues name value).
Proof.
  intros Hc. destruct name; try exact Hc. unfold handleInputChange.
  destruct (_ !! 0%nat) as [lat|]; [|exact Hc].
  destruct (_ !! 1%nat) as [lng|]; [|exact Hc].
  destruct (is_nan lat) eqn:Hlat; [exact Hc|].
  destruct (is_nan lng) eqn:Hlng; [exact Hc|].
  unfold center_is_number; simpl. auto.
Qed.

Lemma getCircleArticles_In (selectedCircle : option (Circle float))
    (loaded : list (Article float)) (article : Article float) :
  In article (getCircleArticles selectedCircle loaded) <->
  In article loaded /\
  exists circle ids, selectedCircle = Some circle /\
    articles circle = Some ids /\ In (pageid article) ids.
Proof.
  unfold getCircleArticles.
  destruct selectedCircle as [[i n c r k [ids|]]|].
  - destruct (length ids =? 0)%nat eqn:Hlen.
    + apply Nat.eqb_eq, nil_length_inv in Hlen. subst ids.
      split; [intros []|].
      intros [_ (circle & ids & Hs & Ha & Hin)].
      injection Hs as <-. simpl in Ha. injection Ha as <-. destruct Hin.
    + unfold Array_filter. rewrite filter_In. cbv beta.
      rewrite Array_includes_spec. split.
      * intros [Ha Hin]. split; [assumption|]. eauto.
      * intros [Ha (circle & ids' & Hs & Hids & Hin)]. split; [assumption|].
        injection Hs as <-. simpl in Hids. now injection Hids as <-.
  - split; [intros []|].
    intros [_ (circle & ids & Hs & Ha & _)]. injection Hs as <-. discriminate.
  - split; [intros []|].
    intros [_ (circle & ids & Hs & _)]. discriminate.
Qed.

Lemma getCircleArticles_sublist (selectedCircle : option (Circle float))
    (loaded : list (Article float)) :
  sublist (getCircleArticles selectedCircle loaded) loaded.
Proof.
  unfold getCircleArticles.
  destruct selectedCircle as [[i n c r k [ids|]]|]; try apply sublist_nil_l.
  destruct (length ids =? 0)%nat; [apply sublist_nil_l|apply Array_filter_sublist].
Qed.

(** X12.  [getCircleArticles] lists an article exactly when a circle is
    selected, the circle has a list of article identifiers and the [pageid]
    of the article is in it; the articles listed stand in the order of the
    prop [articles], not in the order of the identifiers in the circle. *)
Theorem getCircleArticles_lists (selectedCircle : option (Circle float))
    (loaded : list (Article float)) :
  (forall article, In article (getCircleArticles selectedCircle loaded) <->
     In article loaded /\
     exists circle ids, selectedCircle = Some circle /\
       articles circle = Some ids /\ In (pageid article) ids) /\
  sublist (getCircleArticles selectedCircle loaded) loaded.
Proof.
  split; [intros article; apply getCircleArticles_In|apply getCircleArticles_sublist].
Qed.

Lemma sublist_map {A B : Type} (f : A -> B) (l k : list A) :
  sublist l k -> sublist (List.map f l) (List.map f k).
Proof. induction 1; simpl; now constructor. Qed.

(** X13.  When the articles loaded have distinct [pageid]s, [getCircleArticles]
    lists at most as many articles as the selected circle has identifiers,
    the number shown beside the circle in the list of circles. *)
Theorem getCircleArticles_count (circle : Circle float) (ids : list Z)
    (loaded : list (Article float)) :
  NoDup (List.map pageid loaded) -> articles circle = Some ids ->
  (length (getCircleArticles (Some circle) loaded) <= length ids)%nat.
Proof.
  intros Hnd Hids.
  pose proof (getCircleArticles_sublist (Some circle) loaded) as Hsub.
  rewrite <- (length_map pageid).
  apply NoDup_incl_length.
  - apply NoDup_ListNoDup.
    pose proof (sublist_map pageid _ _ Hsub) as Hm. eauto using sublist_NoDup.
  - intros x Hx. apply in_map_iff in Hx. destruct Hx as (a & <- & Ha).
    apply getCircleArticles_In in Ha. destruct Ha as [_ (c & ids' & Hs & Hc & Hp)].
    injection Hs as <-. rewrite Hids in Hc. now injection Hc as <-.
Qed.

End CircleManagerFacts.

Section MapViewFacts.

Lemma filter_none {A : Type} (l : list A) : List.filter (fun _ => false) l = [].
Proof. induction l; auto. Qed.

(** X14.  The articles that [getCircleArticles] of [CircleManager] lists are
    exactly the loaded articles whose marker [getMarkerStyle] of [MapView]
    fills with the colour of the selection, [#1976d2], in the same order. *)
Theorem markers_match_the_list (selectedCircle : option (Circle float))
    (loaded : list (Article float)) :
  CircleManager.getCircleArticles selectedCircle loaded =
  Array_filter
    (fun article =>
       String.eqb (PathOptions.fillColor (MapView.getMarkerStyle selectedCircle article))
         "#1976d2")
    loaded.
Proof.
  unfold CircleManager.getCircleArticles, MapView.getMarkerStyle, Array_filter.
  destruct selectedCircle as [[i n c r k [ids|]]|]; cbn [PathOptions.fillColor].
  - destruct (length ids =? 0)%nat eqn:Hlen.
    + apply Nat.eqb_eq, nil_length_inv in Hlen. subst ids.
      symmetry. apply filter_none.
    + apply filter_ext. intros a. now destruct (Array_includes ids (pageid a)).
  - symmetry. apply filter_none.
  - symmetry. apply filter_none.
Qed.

End MapViewFacts.

Section RouteSelectorFacts.

Lemma Array_find_first {A : Type} (p : A -> bool) (l : list A) :
  match Array_find p l with
  | Some x => p x = true /\
      exists before after, l = before ++ x :: after /\ forall y, In y before -> p y = false
  | None => forall y, In y l -> p y = false
  end.
Proof.
  unfold Array_find. induction l as [|a l IH]; simpl; [now intros|].
  destruct (p a) eqn:Ha.
  - split; [assumption|]. exists [], l. split; [reflexivity|]. now intros.
  - destruct (find p l) as [x|].
    + destruct IH as [Hx (before & after & -> & Hb)]. split; [assumption|].
      exists (a :: before), after. split; [reflexivity|].
      intros y [<-|Hy]; auto.
    + intros y [<-|Hy]; auto.
Qed.

(** X15.  The handler of [RouteSelector] passes [null] to [onSelectRoute] when
    the value chosen is empty or is the [id] of no route; otherwise it
    passes the first route of [routes] that has this [id]. *)
Theorem onChange_selects (routes : list Route.t) (routeId : string) :
  match RouteSelector.onChange routes routeId with
  | Some route =>
      routeId <> "" /\ Route.id route = routeId /\
      exists before after, routes = before ++ route :: after /\
        forall r, In r before -> Route.id r <> routeId
  | None => routeId = "" \/ forall r, In r routes -> Route.id r <> routeId
  end.
Proof.
  unfold RouteSelector.onChange.
  destruct (truthy_string routeId) eqn:Ht; simpl.
  - apply truthy_string_spec in Ht.
    pose proof (Array_find_first (fun r => String.eqb (Route.id r) routeId) routes) as Hf.
    destruct (Array_find _ routes) as [route|].
    + destruct Hf as [Hr (before & after & Hl & Hb)]. apply String.eqb_eq in Hr.
      repeat split; try assumption. exists before, after. split; [assumption|].
      intros r Hin. apply Hb in Hin. now apply String.eqb_neq in Hin.
    + right. intros r Hin. apply Hf in Hin. now apply String.eqb_neq in Hin.
  - left. unfold truthy_string in Ht. apply negb_false_iff in Ht. now apply String.eqb_eq.
Qed.

End RouteSelectorFacts.

Section ArticleDetailFacts.
Context {num : Type} `{NumberOps num}.

(** X16.  When the user chooses a circle in the list of nearby circles of
    [ArticleDetail] and adds the article, [onAddToCircle] is called with the
    [id] of a circle that contains the article and with the [pageid] of the
    article, and the choice is cleared; the [id] of the circle must not be
    empty, for an empty choice is no choice. *)
Theorem nearby_choice_contains (article : Article num) (circles : list (Circle num))
    (circle : Circle num) :
  In circle (nearbyCircles article circles) -> id circle <> "" ->
  ArticleDetail.handleAddToCircle article (ArticleDetail.onClick circle) =
    (ArticleDetail.onAddToCircle (id circle) (pageid article), "") /\
  In circle circles /\ isWithinCircle article circle = true.
Proof.
  intros Hin Hid. unfold nearbyCircles, Array_filter in Hin. apply filter_In in Hin.
  split; [|assumption].
  unfold ArticleDetail.handleAddToCircle, ArticleDetail.onClick.
  apply truthy_string_spec in Hid. now rewrite Hid.
Qed.

End ArticleDetailFacts.

(** * Facts on the page script *)

Section ScriptFacts.
Import Script.
Context {num : Type} `{NumberOps num}.

Lemma placeholder_inj (i j : Z) :
  "Article " +:+ pretty i = "Article " +:+ pretty j -> i = j.
Proof. intros Heq. simpl in Heq. injection Heq as Heq. exact (inj pretty _ _ Heq). Qed.

Lemma getArticleTitle_placeholder (p : Page num) (i : Z) :
  selectedArticleTitles p !! i = None \/ selectedArticleTitles p !! i = Some "" ->
  getArticleTitle p i = "Article " +:+ pretty i.
Proof. unfold getArticleTitle. now intros [->| ->]. Qed.

(** X17.  [getArticleTitle] never answers the empty text: a title that is
    stored as the empty text is replaced, like a title that is not stored,
    by [Article] followed by the identifier; and two articles that have no
    stored title get different texts. *)
Theorem getArticleTitle_names (p : Page num) (i j : Z) :
  getArticleTitle p i <> "" /\
  (forall stored, selectedArticleTitles p !! i = Some stored -> stored <> "" ->
     getArticleTitle p i = stored) /\
  ((selectedArticleTitles p !! i = None \/ selectedArticleTitles p !! i = Some "") ->
   (selectedArticleTitles p !! j = None \/ selectedArticleTitles p !! j = Some "") ->
   getArticleTitle p i = getArticleTitle p j -> i = j).
Proof.
  split; [|split].
  - unfold getArticleTitle. destruct (selectedArticleTitles p !! i) as [t|]; [|discriminate].
    destruct (truthy_string t) eqn:Ht; [|discriminate]. now apply truthy_string_spec.
  - intros stored Hs Hne. unfold getArticleTitle. rewrite Hs.
    apply truthy_string_spec in Hne. now rewrite Hne.
  - intros Hi Hj. rewrite !getArticleTitle_placeholder by assumption. apply placeholder_inj.
Qed.

(** The effects of the primitive steps. *)
Lemma update_element_effects (key : string) (f : Element -> Element) (p : Page num) :
  effects (snd (update_element key f p)) = effects p.
Proof. unfold update_element. now destruct (document p !! key). Qed.

(** X18.  [updateAssignedArticles] posts no message to the parent window for
    a circle without articles, and a message that it posts carries the
    identifiers of the circle, of which there is at least one, each with
    the title that [getArticleTitle] gives: the parent is never told of a
    list that has become empty. *)
Theorem updateAssignedArticles_announces (p : Page num) :
  exists new, effects (snd (updateAssignedArticles p)) = effects p ++ new /\
    forall e, In e new ->
      exists circle ids, circleData p = Some circle /\ articles circle = Some ids /\
        ids <> [] /\
        e = postMessage (articles_updated
              (List.map (fun articleId => (articleId, getArticleTitle p articleId)) ids)).
Proof.
  unfold updateAssignedArticles, and_then, get, assign_innerHTML.
  destruct (circleData p) as [[i n c r k [[|x ids]|]]|] eqn:Hc;
    try (exists []; rewrite update_element_effects, app_nil_r; split; [reflexivity|intros e []]).
  unfold update_element.
  destruct (document p !! "assigned-articles") as [element|];
    [|exists []; rewrite app_nil_r; split; [reflexivity|intros e []]].
  unfold notifyParentOfArticles, and_then, get. cbn [fst snd window_parent circleData].
  destruct (window_parent p);
    [|exists []; simpl; rewrite app_nil_r; split; [reflexivity|intros e []]].
  rewrite Hc. cbn [articles]. eexists. split; [reflexivity|].
  intros e [<-|[]]. exists {| id := i; name := n; center := c; radius := r; color := k;
                              articles := Some (x :: ids) |}, (x :: ids).
  repeat split; try discriminate.
Qed.


(** [parseInt] gives back an identifier that is printed in decimal
    digits. *)
Lemma parseInt_decimal (parseInt_exponential : Z -> Z) (articleId : Z) :
  (Z.abs articleId < 10 ^ 21)%Z -> parseInt parseInt_exponential articleId = articleId.
Proof.
  intros Hid. unfold parseInt. apply Z.ltb_lt in Hid. now rewrite Hid.
Qed.

(** X19.  When the circle fetched by [assignArticleToCircle] arrives, for
    an article whose identifier is below [10^21] in absolute value: an
    article that is already in the list of the circle is not added again
    (nothing is posted, and the user is told that the article is already
    assigned); otherwise the circle is posted to [/save-circle] under the
    identifier given, with the fetched list followed by the article; a list
    without repetition stays so. *)
Theorem assignArticleToCircle_appends (parseInt_exponential : Z -> Z) (articleId : Z)
    (circleId : string) (data : Circle num) (p : Page num) :
  let ids := default [] (articles data) in
  let after := snd (settle (assignArticleToCircle_then parseInt_exponential
                              articleId circleId data)
                      assignArticleToCircle_catch p) in
  (Z.abs articleId < 10 ^ 21)%Z -> NoDup ids ->
  (In articleId ids /\
   effects after = effects p ++
     [console_error "Error:";
      alert "This article is already assigned to the selected circle."]) \/
  (~ In articleId ids /\ NoDup (ids ++ [articleId]) /\
   effects after = effects p ++
     [fetch "/save-circle" "POST"
        (Some (circle_body
           {| id := circleId; name := name data; center := center data;
              radius := radius data; color := color data;
              articles := Some (ids ++ [articleId]) |}))]).
Proof.
  intros ids after Hid Hnd. subst after.
  unfold settle, assignArticleToCircle_then. rewrite parseInt_decimal by assumption.
  fold ids.
  destruct (Array_includes ids articleId) eqn:Hin; simpl.
  - left. apply Array_includes_spec in Hin. split; [assumption|].
    now rewrite <- app_assoc.
  - right. assert (Hn : ~ In articleId ids).
    { intros Hi. apply Array_includes_spec in Hi. congruence. }
    repeat split; try assumption.
    apply NoDup_app. repeat split; try assumption.
    + intros x Hx Hx'. apply list_elem_of_singleton in Hx'. subst x.
      now apply list_elem_of_In in Hx.
    + apply NoDup_singleton.
Qed.

(** *** Properties of the page that a computation keeps *)

Section Keeps.
Variable Q : Page num -> Prop.

Definition keeps {A : Type} (m : Run num A) : Prop := forall p, Q p -> Q (snd (m p)).

Lemma keeps_pure {A : Type} (a : A) : keeps (pure a).
Proof. now intros p. Qed.

Lemma keeps_get : keeps get.
Proof. now intros p. Qed.

Lemma keeps_raise {A : Type} (e : Exception) : keeps (raise (A := A) e).
Proof. now intros p. Qed.

Lemma keeps_and_then {A B : Type} (m : Run num A) (k : A -> Run num B) :
  keeps m -> (forall a, keeps (k a)) -> keeps (and_then m k).
Proof.
  intros Hm Hk p Hp. unfold and_then. specialize (Hm p Hp).
  destruct (m p) as [[a|e] p']; [now apply Hk|assumption].
Qed.

Lemma keeps_settle (m : Run num unit) (h : Exception -> Run num unit) :
  keeps m -> (forall e, keeps (h e)) -> keeps (settle m h).
Proof.
  intros Hm Hh p Hp. unfold settle. specialize (Hm p Hp).
  destruct (m p) as [[a|e] p']; [assumption|now apply Hh].
Qed.

Lemma keeps_update_element (key : string) (f : Element -> Element) :
  (forall p element, Q p -> document p !! key = Some element ->
     Q {| globals := globals p;
          selectedArticleTitles := selectedArticleTitles p;
          circleData := circleData p;
          currentArticleForAssignment := currentArticleForAssignment p;
          document := <[key := f element]> (document p);
          window_parent := window_parent p;
          effects := effects p |}) ->
  keeps (update_element key f).
Proof.
  intros HQ p Hp. unfold update_element.
  destruct (document p !! key) as [element|] eqn:He; [now apply HQ|assumption].
Qed.

Lemma keeps_emit (e : Effect num) :
  (forall p, Q p ->
     Q {| globals := globals p;
          selectedArticleTitles := selectedArticleTitles p;
          circleData := circleData p;
          currentArticleForAssignment := currentArticleForAssignment p;
          document := document p;
          window_parent := window_parent p;
          effects := effects p ++ [e] |}) ->
  keeps (emit e).
Proof. intros HQ p Hp. now apply HQ. Qed.

Lemma keeps_call {A : Type} (m : JS num A) :
  (forall p, Q p ->
     Q {| globals := snd (m (globals p));
          selectedArticleTitles := selectedArticleTitles p;
          circleData := circleData p;
          currentArticleForAssignment := currentArticleForAssignment p;
          document := document p;
          window_parent := window_parent p;
          effects := effects p |}) ->
  keeps (call m).
Proof.
  intros HQ p Hp. unfold call. specialize (HQ p Hp).
  now destruct (m (globals p)).
Qed.

End Keeps.

(** A computation that completes normally is followed by the next one. *)
Lemma and_then_normal {A B : Type} (m : Run num A) (k : A -> Run num B) (p p' : Page num) (a : A) :
  m p = (normal a, p') -> and_then m k p = k a p'.
Proof. intros Hm. unfold and_then. now rewrite Hm. Qed.

(** [showNearbyCircles] records the article and its location, whether or
    not the panels of the page are there, and has no effect outside the
    page. *)
Lemma showNearbyCircles_records (Math_round : num -> num) (Number_toString : num -> string)
    (articleId : Z) (latitude longitude : num) (title : string) (p : Page num) :
  let after := snd (showNearbyCircles Math_round Number_toString articleId
                      latitude longitude title p) in
  currentArticleForAssignment after = Some (articleId, title) /\
  currentArticleLocation (globals after) = Some (latitude, longitude) /\
  effects after = effects p.
Proof.
  set (Q := fun q : Page num =>
    currentArticleForAssignment q = Some (articleId, title) /\
    currentArticleLocation (globals q) = Some (latitude, longitude) /\
    effects q = effects p).
  unfold showNearbyCircles.
  erewrite and_then_normal by reflexivity. erewrite and_then_normal by reflexivity.
  apply (keeps_and_then Q).
  { apply keeps_update_element. now intros q element Hq _. }
  intros _. apply (keeps_and_then Q).
  { apply keeps_call. intros q (Ha & Hl & He). rewrite findNearbyCircles_run.
    now repeat split. }
  intros nearbyCircles. apply (keeps_and_then Q).
  { apply keeps_call. now intros q Hq. }
  intros circles. apply (keeps_and_then Q).
  { destruct (length circles =? 0)%nat; apply keeps_update_element;
      now intros q element Hq _. }
  intros _. apply keeps_update_element. now intros q element Hq _.
  now repeat split.
Qed.

Lemma settle_and_then {A : Type} (m : Run num A) (k : A -> Run num unit)
    (h : Exception -> Run num unit) (p p' : Page num) (a : A) :
  m p = (normal a, p') -> settle (and_then m k) h p = settle (k a) h p'.
Proof. intros Hm. unfold settle, and_then. now rewrite Hm. Qed.

Lemma or_string_empty (s : string) : or_string (Some s) "" = s.
Proof.
  unfold or_string, truthy_string. destruct (String.eqb_spec s ""); simpl; congruence.
Qed.

(** X20.  [selectCircle] tells the parent window of the circle that was
    loaded before the call, or of none: the message is posted while the
    request for the circle selected is still on its way. *)
Theorem selectCircle_announces_previous (circleId : string) (p : Page num) :
  circleId <> "" -> is_Some (document p !! "circle-panel") -> window_parent p = true ->
  let after := snd (selectCircle circleId p) in
  effects after = effects p ++
    [fetch ("/get-circle/" +:+ circleId) "GET" None;
     postMessage (circle_selected (circleData p))] /\
  currentCircleId (globals after) = Some circleId /\
  circleData after = circleData p.
Proof.
  intros Hne [element He] Hw.
  apply truthy_string_spec in Hne.
  unfold selectCircle, set_currentCircleId, loadCircleData, showCirclePanel, assign_display,
    update_element, notifyParentOfSelection, set_globals, emit, and_then, get, pure.
  cbn [fst snd globals currentCircleId document window_parent effects circleData].
  rewrite Hne.
  cbn [fst snd globals currentCircleId document window_parent effects circleData].
  rewrite He.
  cbn [fst snd globals currentCircleId document window_parent effects circleData].
  rewrite Hw.
  cbn [fst snd globals currentCircleId document window_parent effects circleData].
  rewrite <- app_assoc. auto.
Qed.

Section KeepsMore.
Variable Q : Page num -> Prop.

Hypothesis Q_effects : forall p es,
  Q p ->
  Q {| globals := globals p;
       selectedArticleTitles := selectedArticleTitles p;
       circleData := circleData p;
       currentArticleForAssignment := currentArticleForAssignment p;
       document := document p;
       window_parent := window_parent p;
       effects := es |}.

Hypothesis Q_assigned_articles : forall p element,
  Q p ->
  Q {| globals := globals p;
       selectedArticleTitles := selectedArticleTitles p;
       circleData := circleData p;
       currentArticleForAssignment := currentArticleForAssignment p;
       document := <["assigned-articles" := element]> (document p);
       window_parent := window_parent p;
       effects := effects p |}.

Lemma keeps_notifyParentOfSelection : keeps Q notifyParentOfSelection.
Proof using Q_effects.
  unfold notifyParentOfSelection. apply keeps_and_then; [apply keeps_get|]. intros p.
  destruct (window_parent p); [|apply keeps_pure]. apply keeps_emit. auto.
Qed.

Lemma keeps_notifyParentOfArticles : keeps Q notifyParentOfArticles.
Proof using Q_effects.
  unfold notifyParentOfArticles. apply keeps_and_then; [apply keeps_get|]. intros p.
  destruct (window_parent p); [|apply keeps_pure].
  destruct (circleData p) as [circle|]; [|apply keeps_pure].
  destruct (articles circle); [|apply keeps_raise]. apply keeps_emit. auto.
Qed.

Lemma keeps_updateAssignedArticles : keeps Q updateAssignedArticles.
Proof using Q_effects Q_assigned_articles.
  unfold updateAssignedArticles. apply keeps_and_then; [apply keeps_get|]. intros p.
  destruct (circleData p) as [[i n c r k [[|x ids]|]]|];
    try (apply keeps_update_element; auto).
  apply keeps_and_then; [apply keeps_update_element; auto|].
  intros _. apply keeps_notifyParentOfArticles.
Qed.

End KeepsMore.

(** X21.  [saveCircle] posts the circle that the last response of
    [loadCircleData] brought, under the identifier in [currentCircleId]:
    the handler of the response stores the circle without comparing its
    identifier with [currentCircleId], so that when the responses of two
    selections arrive in the other order, the geometry and the articles of
    one circle are saved under the identifier of the other.  The name
    posted is never empty. *)
Theorem saveCircle_after_response (trim : string -> string) (data : Circle num)
    (circleId : string) (p : Page num) :
  currentCircleId (globals p) = Some circleId -> circleId <> "" ->
  is_Some (document p !! "circle-name") ->
  let loaded := snd (settle (loadCircleData_then data) loadCircleData_catch p) in
  let posted := or_string (Some (trim (name data))) "Unnamed Circle" in
  posted <> "" /\
  effects (snd (saveCircle trim loaded)) = effects loaded ++
    [fetch "/save-circle" "POST"
       (Some (circle_body
          {| id := circleId; name := posted; center := center data;
             radius := radius data; color := color data;
             articles := Some (default [] (articles data)) |}))].
Proof.
  intros Hc Hne [element He] loaded posted.
  split; [now apply or_string_truthy|].
  set (Q := fun q : Page num =>
    circleData q = Some data /\ currentCircleId (globals q) = Some circleId /\
    exists e, document q !! "circle-name" = Some e /\ value e = name data).
  assert (HQ : Q loaded).
  { subst loaded. unfold loadCircleData_then.
    erewrite settle_and_then by reflexivity.
    erewrite settle_and_then
      by (unfold assign_value, update_element; cbn [document]; rewrite He; reflexivity).
    apply (keeps_settle Q).
    - apply keeps_and_then.
      + apply keeps_updateAssignedArticles.
        * now intros q es Hq.
        * intros q e (Hd & Hi & e' & He' & Hv). repeat split; try assumption.
          exists e'. cbn [document]. now rewrite lookup_insert_ne.
      + intros _. apply keeps_notifyParentOfSelection. now intros q es Hq.
    - intros e. unfold loadCircleData_catch. apply keeps_and_then.
      + apply keeps_emit. now intros q Hq.
      + intros _. apply keeps_emit. now intros q Hq.
    - repeat split; try assumption. eexists. cbn [document]. rewrite lookup_insert_eq.
      split; [reflexivity|]. cbn [value]. apply or_string_empty. }
  destruct HQ as (Hd & Hi & e & Hel & Hv).
  apply truthy_string_spec in Hne.
  unfold saveCircle, and_then, get, read_value, emit.
  cbn [fst snd]. rewrite Hi, Hd, Hne, Hel. cbn [fst snd effects]. now rewrite Hv.
Qed.

(** X22.  When the response of [deleteCircle] has arrived and the panel of
    the circle is on the page, no circle is selected any more: [saveCircle]
    posts nothing and says that no circle is selected, and [loadCircleData],
    [removeAssignedArticle] and [deleteCircle] leave the page as it is. *)
Theorem nothing_is_selected_after_deletion (trim : string -> string)
    (parseInt_exponential : Z -> Z) (p : Page num) :
  is_Some (document p !! "circle-panel") ->
  let deleted := snd (settle deleteCircle_then deleteCircle_catch p) in
  effects deleted = effects p ++ [alert "Circle deleted successfully!"; reload] /\
  effects (snd (saveCircle trim deleted)) = effects deleted ++ [alert "No circle selected!"] /\
  snd (loadCircleData deleted) = deleted /\
  (forall articleId confirmed,
     snd (removeAssignedArticle parseInt_exponential articleId confirmed deleted) =
     deleted) /\
  (forall confirmed, snd (deleteCircle confirmed deleted) = deleted).
Proof.
  intros [element He] deleted.
  assert (Hi : currentCircleId (globals deleted) = None /\
               effects deleted = effects p ++ [alert "Circle deleted successfully!"; reload]).
  { subst deleted.
    unfold settle, deleteCircle_then, hideCirclePanel, assign_display, update_element,
      set_currentCircleId, set_circleData, set_globals, emit, and_then, get.
    cbn [fst snd document globals effects]. rewrite He.
    cbn [fst snd document globals effects currentCircleId].
    now rewrite <- app_assoc. }
  destruct Hi as [Hi Hf]. split; [assumption|].
  unfold saveCircle, loadCircleData, removeAssignedArticle, deleteCircle, and_then, get, pure.
  cbn [fst snd]. rewrite Hi. auto.
Qed.

(** X23.  After [initializeArticleData] has received the circles of the
    server, [findNearbyCircles] answers from these circles alone, and the
    arrays that the page held before, such as the results of earlier calls,
    are as they were. *)
Theorem findNearbyCircles_after_reload (data : list (Circle num)) (p : Page num)
    (latitude longitude : num) :
  let after := snd (initializeArticleData_then data p) in
  returned (findNearbyCircles latitude longitude) (globals after) =
    nearby_list latitude longitude data /\
  arrays (globals p) ⊆ arrays (globals after).
Proof.
  unfold initializeArticleData_then, set_allCircles, and_then, get, set_globals. simpl.
  split.
  - rewrite returned_findNearbyCircles. unfold contents; simpl.
    now rewrite lookup_insert_eq.
  - apply insert_subseteq, fresh_array.
Qed.

End ScriptFacts.

Section ScriptOnBinary64.
Import Script.
Context (M : MathLib).
Local Open Scope float_scope.

(** X24.  After [showNearbyCircles] for an article whose identifier is
    below [10^21] in absolute value, [createCircleForArticle] posts a circle
    of radius 200 whose centre is the location of the article and whose one
    article is this article; the circle contains the location, for the test
    of [ArticleDetail] and for [findNearbyCircles]. *)
Theorem createCircleForArticle_contains (Math_round : float -> float)
    (Number_toString : float -> string) (parseInt_exponential : Z -> Z) (articleId : Z)
    (latitude longitude : float) (heading : string) (now : Z) (p : Page float) :
  (Z.abs articleId < 10 ^ 21)%Z ->
  (-90 <=? latitude) = true -> (latitude <=? 90) = true ->
  (-180 <=? longitude) = true -> (longitude <=? 180) = true ->
  let shown := snd (showNearbyCircles (H := float_ops M) Math_round Number_toString
                      articleId latitude longitude heading p) in
  let newCircle :=
    {| id := "circle_" +:+ pretty now; name := "Circle for " +:+ heading;
       center := (latitude, longitude); radius := 200; color := "#95276E";
       articles := Some [articleId] |} in
  effects (snd (createCircleForArticle (H := float_ops M) parseInt_exponential now shown)) =
    effects p ++ [fetch "/save-circle" "POST" (Some (circle_body newCircle))] /\
  isWithinCircle (H := float_ops M)
    {| pageid := articleId; title := heading; lat := latitude; lon := longitude |}
    newCircle = true /\
  within_1000_or_radius (H := float_ops M) latitude longitude newCircle = true.
Proof.
  intros Hid H1 H2 H3 H4 shown newCircle.
  destruct (showNearbyCircles_records (H := float_ops M) Math_round Number_toString
              articleId latitude longitude heading p) as (Ha & Hl & He).
  fold shown in Ha, Hl, He. split; [|split].
  - unfold createCircleForArticle, and_then, get, emit. cbn [fst snd].
    rewrite Ha, Hl. cbn [fst snd effects].
    now rewrite He, (parseInt_decimal parseInt_exponential) by assumption.
  - unfold isWithinCircle, newCircle. cbn [center radius lat lon fst snd].
    rewrite (getDistanceFromLatLonInM_itself M) by assumption. reflexivity.
  - unfold within_1000_or_radius, newCircle. cbn [center radius fst snd].
    rewrite (calculateDistance_itself M) by assumption. reflexivity.
Qed.

End ScriptOnBinary64.

(** * The components and the script at work *)

Module EditorFacts.
Import Script Editor.
#[local] Set Warnings "-inexact-float".
Local Open Scope float_scope.

Local Abbreviation ops := (float_ops sample_math).

(** ** The proximity code *)


(** A circle of negative radius at the query point is found by
    [findNearbyCircles], within the 1000 metres, while [ArticleDetail] does
    not list it. *)
Lemma finds_centre_witness :
  In Berlin.circle_negative
    (returned (findNearbyCircles (H := ops) 52.52 13.405)
       (Berlin.page 1%positive [Berlin.circle_b; Berlin.circle_negative] [])).
Proof.
  apply (findNearbyCircles_finds_centre sample_math
           (Berlin.page 1%positive [Berlin.circle_b; Berlin.circle_negative] [])
           52.52 13.405 Berlin.circle_negative); try reflexivity.
  right. left. reflexivity.
Defined.

(** What [Berlin.circle_small] contains, the wider [circle_wide] contains. *)
Lemma larger_circle_witness :
  (isWithinCircle (H := ops) (Berlin.article_at 52.521 13.406) Berlin.circle_small = true ->
   isWithinCircle (H := ops) (Berlin.article_at 52.521 13.406) circle_wide = true) /\
  (forall latitude longitude,
     within_1000_or_radius (H := ops) latitude longitude Berlin.circle_small = true ->
     within_1000_or_radius (H := ops) latitude longitude circle_wide = true).
Proof.
  apply (larger_circle_contains_more sample_math (Berlin.article_at 52.521 13.406)
           Berlin.circle_small circle_wide); reflexivity.
Defined.

(** [Berlin.circle_zero] contains the article at its centre. *)
Lemma own_centre_witness :
  isWithinCircle (H := ops) (Berlin.article_at 52.52 13.405) Berlin.circle_zero = true <->
  (0 <=? radius Berlin.circle_zero) = true.
Proof.
  apply (contains_own_centre_iff sample_math (Berlin.article_at 52.52 13.405)
           Berlin.circle_zero); reflexivity.
Defined.

(** A circle whose centre has a latitude that is [NaN] is nowhere near,
    although its radius is infinite. *)
Example nowhere_is_not_nearby :
  returned (findNearbyCircles (H := ops) 52.52 13.405)
    (Berlin.page 1%positive [circle_nowhere; Berlin.circle_a] []) = [Berlin.circle_a] /\
  nearbyCircles (H := ops) (Berlin.article_at 52.52 13.405) [circle_nowhere; Berlin.circle_a] =
    [Berlin.circle_a].
Proof. rewrite returned_findNearbyCircles. vm_compute. auto. Qed.

(** ** [ArticleDetail] *)

(** The article at the centre of [circle_a], chosen from the list of nearby
    circles and added. *)
Lemma nearby_choice_witness :
  ArticleDetail.handleAddToCircle (Berlin.article_at 52.52 13.405)
    (ArticleDetail.onClick Berlin.circle_a) =
    (ArticleDetail.onAddToCircle "a" 1, "") /\
  In Berlin.circle_a [Berlin.circle_small; Berlin.circle_a] /\
  isWithinCircle (H := ops) (Berlin.article_at 52.52 13.405) Berlin.circle_a = true.
Proof.
  apply (nearby_choice_contains (H := ops) (Berlin.article_at 52.52 13.405)
           [Berlin.circle_small; Berlin.circle_a] Berlin.circle_a).
  - vm_compute. auto.
  - discriminate.
Defined.

(** With no circle chosen, nothing is added. *)
Example nothing_chosen :
  ArticleDetail.handleAddToCircle (Berlin.article_at 52.52 13.405) "" =
  (ArticleDetail.alert "Please select a circle", "").
Proof. reflexivity. Qed.

(** ** The form of [CircleManager] *)

(** Text typed in the [center] input: two numbers set the centre, what
    follows a second comma is ignored, and text that is no pair of numbers
    changes nothing. *)
Example center_typed :
  Partial.center (type CircleManager.emptyCircle CircleManager.input_center "52.5, 13.4") =
    Some (52.5, 13.4) /\
  Partial.center (type CircleManager.emptyCircle CircleManager.input_center " 1,2,3") =
    Some (1, 2) /\
  Partial.center (type CircleManager.emptyCircle CircleManager.input_center "52.5") =
    Some (52.52, 13.405) /\
  Partial.center (type CircleManager.emptyCircle CircleManager.input_center "north, 13.4") =
    Some (52.52, 13.405).
Proof. vm_compute. auto. Qed.

Lemma keeps_center_witness :
  CircleManager.center_is_number CircleManager.emptyCircle /\
  CircleManager.center_is_number
    (type CircleManager.emptyCircle CircleManager.input_center "north, 13.4").
Proof.
  assert (He : CircleManager.center_is_number CircleManager.emptyCircle)
    by (split; reflexivity).
  split; [exact He|].
  exact (handleInputChange_keeps_center SampleText.parseFloat SampleText.trim
           CircleManager.emptyCircle CircleManager.input_center "north, 13.4" He).
Defined.

(** A radius that is negative is passed on; a radius that is zero or does
    not parse, and the form as it is reset, are refused. *)
Example submit_accepts :
  CircleManager.handleSubmit (filled "250") None =
  CircleManager.onCreateCircle
    {| id := "c1"; name := "Mitte"; center := (52.52, 13.405); radius := 250;
       color := "#1976d2"; articles := Some [] |}.
Proof. vm_compute. reflexivity. Qed.

Example submit_negative_radius :
  CircleManager.handleSubmit (filled "-5") None =
  CircleManager.onCreateCircle
    {| id := "c1"; name := "Mitte"; center := (52.52, 13.405); radius := -5;
       color := "#1976d2"; articles := Some [] |}.
Proof. vm_compute. reflexivity. Qed.

Example submit_refuses :
  CircleManager.handleSubmit (filled "") None =
    CircleManager.alert "Please fill all required fields" /\
  CircleManager.handleSubmit (filled "0") None =
    CircleManager.alert "Please fill all required fields" /\
  CircleManager.handleSubmit CircleManager.emptyCircle None =
    CircleManager.alert "Please fill all required fields".
Proof. vm_compute. auto. Qed.

(** Of the three identifiers of [circle_three], one has a loaded
    article. *)
Example fewer_listed_than_counted :
  CircleManager.getCircleArticles (Some circle_three) [article_5; article_8] = [article_8].
Proof. reflexivity. Qed.

Lemma count_witness :
  (length (CircleManager.getCircleArticles (Some circle_three) [article_5; article_8]) <= 3)%nat.
Proof.
  apply (getCircleArticles_count circle_three [7; 8; 9]%Z [article_5; article_8]).
  - apply (bool_decide_eq_true_1 (NoDup (List.map pageid [article_5; article_8]))).
    reflexivity.
  - reflexivity.
Defined.

(** ** The page script *)

Example titles :
  List.map (getArticleTitle editor) [7; 8; 9]%Z = ["Article 7"; "Fernsehturm"; "Article 9"].
Proof. vm_compute. reflexivity. Qed.

(** A circle without articles arrives: the list is emptied on the page, and
    the parent window hears of the circle but not of its articles. *)
Example emptied_circle_is_not_announced :
  let after := snd (settle (loadCircleData_then Berlin.circle_a) loadCircleData_catch editor) in
  option_map innerHTML (document after !! "assigned-articles") =
    Some "<p>No articles assigned to this circle</p>" /\
  effects after = [postMessage (circle_selected (Some Berlin.circle_a))].
Proof. vm_compute. auto. Qed.

(** An identifier of 22 digits is not read back whole: the article that
    is assigned is another one. *)
Example large_identifier :
  parseInt SampleText.parseInt_exponential (10 ^ 21) = 1%Z /\
  effects (snd (settle (assignArticleToCircle_then SampleText.parseInt_exponential
                          (10 ^ 21) "c" circle_three)
                  assignArticleToCircle_catch editor)) =
  [fetch "/save-circle" "POST"
     (Some (circle_body
        {| id := "c"; name := "Three"; center := (52.52, 13.405); radius := 500;
           color := "#1976d2"; articles := Some [7; 8; 9; 1]%Z |}))].
Proof. vm_compute. auto. Qed.

(** The article 8 is in [circle_three] already. *)
Lemma assign_witness :
  let after := snd (settle (assignArticleToCircle_then SampleText.parseInt_exponential
                              8 "c" circle_three)
                      assignArticleToCircle_catch editor) in
  (In 8%Z [7; 8; 9]%Z /\
   effects after = effects editor ++
     [console_error "Error:";
      alert "This article is already assigned to the selected circle."]) \/
  (~ In 8%Z [7; 8; 9]%Z /\ NoDup ([7; 8; 9]%Z ++ [8%Z]) /\
   effects after = effects editor ++
     [fetch "/save-circle" "POST"
        (Some (circle_body
           {| id := "c"; name := "Three"; center := (52.52, 13.405); radius := 500;
              color := "#1976d2"; articles := Some ([7; 8; 9]%Z ++ [8%Z]) |}))]).
Proof.
  apply (assignArticleToCircle_appends SampleText.parseInt_exponential 8 "c"
           circle_three editor).
  - reflexivity.
  - apply (bool_decide_eq_true_1 (NoDup [7; 8; 9]%Z)). reflexivity.
Defined.

(** The article 5 is not: it is appended. *)
Example assign_appends :
  effects (snd (settle (assignArticleToCircle_then SampleText.parseInt_exponential
                          5 "c" circle_three)
                  assignArticleToCircle_catch editor)) =
  [fetch "/save-circle" "POST"
     (Some (circle_body
        {| id := "c"; name := "Three"; center := (52.52, 13.405); radius := 500;
           color := "#1976d2"; articles := Some [7; 8; 9; 5]%Z |}))].
Proof. reflexivity. Qed.

Lemma select_witness :
  effects editor_b =
    [fetch "/get-circle/b" "GET" None;
     postMessage (circle_selected (Some circle_three))] /\
  currentCircleId (globals editor_b) = Some "b" /\
  circleData editor_b = Some circle_three.
Proof.
  apply (selectCircle_announces_previous "b" editor).
  - discriminate.
  - vm_compute. eauto.
  - reflexivity.
Defined.

(** The circle [b] is selected and the response for another circle, [a],
    arrives: what is saved under [b] is the circle [a]. *)
Lemma save_witness :
  let loaded := snd (settle (loadCircleData_then Berlin.circle_a) loadCircleData_catch
                       editor_b) in
  "Alexanderplatz" <> "" /\
  effects (snd (saveCircle SampleText.trim loaded)) = effects loaded ++
    [fetch "/save-circle" "POST"
       (Some (circle_body
          {| id := "b"; name := "Alexanderplatz"; center := (52.52, 13.405);
             radius := 200; color := "#3388ff"; articles := Some [] |}))].
Proof.
  apply (saveCircle_after_response SampleText.trim Berlin.circle_a "b" editor_b).
  - reflexivity.
  - discriminate.
  - vm_compute. eauto.
Defined.

Lemma deletion_witness :
  let deleted := snd (settle deleteCircle_then deleteCircle_catch editor_b) in
  effects deleted = effects editor_b ++ [alert "Circle deleted successfully!"; reload] /\
  effects (snd (saveCircle SampleText.trim deleted)) =
    effects deleted ++ [alert "No circle selected!"] /\
  snd (loadCircleData deleted) = deleted /\
  (forall articleId confirmed,
     snd (removeAssignedArticle SampleText.parseInt_exponential articleId confirmed
            deleted) = deleted) /\
  (forall confirmed, snd (deleteCircle confirmed deleted) = deleted).
Proof.
  apply (nothing_is_selected_after_deletion SampleText.trim
           SampleText.parseInt_exponential editor_b).
  vm_compute. eauto.
Defined.

(** Without the panel on the page the handler of the response throws
    before it clears the selection: the user is told of an error, and the
    circle that the server has deleted stays selected. *)
Example deletion_without_panel :
  let page :=
    {| globals := globals editor_b; selectedArticleTitles := ∅; circleData := None;
       currentArticleForAssignment := None; document := ∅; window_parent := true;
       effects := [] |} in
  let deleted := snd (settle deleteCircle_then deleteCircle_catch page) in
  effects deleted =
    [alert "Circle deleted successfully!"; console_error "Error:";
     alert "Error deleting circle"] /\
  currentCircleId (globals deleted) = Some "b".
Proof. vm_compute. auto. Qed.

Lemma create_witness :
  let shown := snd (showNearbyCircles (H := ops) (fun x => x) (fun _ => "130")
                      8 52.5208 13.4094 "Fernsehturm" editor) in
  let newCircle :=
    {| id := "circle_1718000000000"; name := "Circle for Fernsehturm";
       center := (52.5208, 13.4094); radius := 200; color := "#95276E";
       articles := Some [8%Z] |} in
  effects (snd (createCircleForArticle (H := ops) SampleText.parseInt_exponential
                  1718000000000 shown)) =
    effects editor ++ [fetch "/save-circle" "POST" (Some (circle_body newCircle))] /\
  isWithinCircle (H := ops)
    {| pageid := 8; title := "Fernsehturm"; lat := 52.5208; lon := 13.4094 |}
    newCircle = true /\
  within_1000_or_radius (H := ops) 52.5208 13.4094 newCircle = true.
Proof.
  apply (createCircleForArticle_contains sample_math (fun x => x) (fun _ => "130")
           SampleText.parseInt_exponential 8 52.5208 13.4094 "Fernsehturm"
           1718000000000 editor); reflexivity.
Defined.

End EditorFacts.
